(** * tulen: the note-sequence text codec and the upload pipeline

    A shallow embedding of [myapp/views.py].  Python text is modelled as a
    list of 8-bit characters (code points below 128 carry their ASCII meaning,
    the others are letters without case that are neither digits nor blanks);
    Python integers are [Z]; Python floats are IEEE 754 binary64 values,
    taken from the Standard Library's executable specification [SpecFloat];
    exceptions are an explicit result type; logging and the calls into the
    external collaborators (audio decoding, tempo estimation, the file system,
    the text-completion service) are recorded in a trace that is threaded
    through the code as state. *)

From Stdlib Require Import ZArith Ascii String Bool Lia List.
From Stdlib Require Import Floats.SpecFloat.
Import ListNotations.

Local Open Scope Z_scope.

(** ** Python values used by the module *)

(** Text. *)
Definition str := list ascii.

Definition lit (s : string) : str := list_ascii_of_string s.

Definition NL : ascii := ascii_of_nat 10.
Definition SP : ascii := ascii_of_nat 32.

(** Exceptions raised by the modelled code, all subclasses of [Exception]. *)
Inductive exn : Type :=
| ValueError (msg : str)
| KeyError (msg : str)
| TypeError (msg : str)
| OverflowError (msg : str)
| IndexError (msg : str)
| ExternalError (msg : str).

(** [str(e)] *)
Definition exn_str (e : exn) : str :=
  match e with
  | ValueError m | TypeError m | OverflowError m
  | IndexError m | ExternalError m => m
  | KeyError m => lit "'" ++ m ++ lit "'"
  end.

Inductive result (A : Type) : Type :=
| Ok (a : A)
| Raise (e : exn).
Arguments Ok {A} a.
Arguments Raise {A} e.

(** ** binary64 arithmetic *)

Module Float.

Definition prec : Z := 53.
Definition emax : Z := 1024.

Definition float := spec_float.

Definition mul : float -> float -> float := SFmul prec emax.
Definition div : float -> float -> float := SFdiv prec emax.

(** The nearest binary64 value of an integer, ties to even. *)
Definition of_Z (z : Z) : float := binary_normalize prec emax z 0 false.

(** [float(z)] in an arithmetic operation: Python refuses an integer that
    rounds out of the binary64 range. *)
Definition of_int (z : Z) : result float :=
  match of_Z z with
  | S754_infinity _ => Raise (OverflowError (lit "int too large to convert to float"))
  | f => Ok f
  end.

(** [int(x)]: truncation toward zero. *)
Definition to_int (x : float) : result Z :=
  match x with
  | S754_zero _ => Ok 0
  | S754_nan => Raise (ValueError (lit "cannot convert float NaN to integer"))
  | S754_infinity _ =>
      Raise (OverflowError (lit "cannot convert float infinity to integer"))
  | S754_finite s m e =>
      let a := match e with
               | Zneg k => Z.shiftr (Zpos m) (Zpos k)
               | _ => Z.shiftl (Zpos m) e
               end in
      Ok (if s then - a else a)
  end.

End Float.

Definition f1000 : Float.float := Float.of_Z 1000.

(** [t / 1000.0] for an integer [t] (lines 58-59). *)
Definition seconds_of_ms (t : Z) : result Float.float :=
  match Float.of_int t with
  | Ok f => Ok (Float.div f f1000)
  | Raise e => Raise e
  end.

(** [int(x * 1000)] for a float [x] (lines 79-80). *)
Definition ms_of_seconds (x : Float.float) : result Z :=
  Float.to_int (Float.mul x (Float.of_Z 1000)).

Definition ms_there_and_back (t : Z) : result Z :=
  match seconds_of_ms t with
  | Ok x => ms_of_seconds x
  | Raise e => Raise e
  end.

(** ** Text operations *)

Definition code (c : ascii) : Z := Z.of_nat (nat_of_ascii c).

(** [c.isspace()] on the characters the model gives a meaning to. *)
Definition is_space (c : ascii) : bool :=
  let n := code c in
  ((9 <=? n) && (n <=? 13)) || ((28 <=? n) && (n <=? 32)).

Definition is_digit (c : ascii) : bool :=
  let n := code c in (48 <=? n) && (n <=? 57).

Definition digit_val (c : ascii) : Z := code c - 48.

Definition digit_char (d : Z) : ascii := ascii_of_nat (Z.to_nat (48 + d)).

Definition lower_char (c : ascii) : ascii :=
  let n := code c in
  if (65 <=? n) && (n <=? 90) then ascii_of_nat (Z.to_nat (n + 32)) else c.

(** [s.lower()] *)
Definition lower (s : str) : str := map lower_char s.

Definition ascii_eqb (a b : ascii) : bool := Ascii.eqb a b.

(** [s.startswith(p)] *)
Fixpoint startswith (s p : str) {struct p} : bool :=
  match p, s with
  | [], _ => true
  | _ :: _, [] => false
  | b :: p', a :: s' => ascii_eqb a b && startswith s' p'
  end.

(** [s.endswith(p)] *)
Definition endswith (s p : str) : bool := startswith (rev s) (rev p).

Fixpoint lstrip (s : str) : str :=
  match s with
  | [] => []
  | a :: s' => if is_space a then lstrip s' else s
  end.

Definition rstrip (s : str) : str := rev (lstrip (rev s)).

(** [s.strip()] *)
Definition strip (s : str) : str := rstrip (lstrip s).

(** [s.split(c)] for a one-character separator: never empty. *)
Fixpoint split_on (c : ascii) (s : str) : list str :=
  match s with
  | [] => [[]]
  | a :: s' =>
      if ascii_eqb a c then [] :: split_on c s'
      else match split_on c s' with
           | [] => [[a]]
           | l :: ls => (a :: l) :: ls
           end
  end.

(** [s.split()]: the maximal runs of characters that are not blanks.
    [w] is the run being read, latest character first. *)
Fixpoint fields (w : str) (s : str) : list str :=
  match s with
  | [] => match w with [] => [] | _ => [rev w] end
  | a :: s' =>
      if is_space a
      then match w with [] => fields [] s' | _ => rev w :: fields [] s' end
      else fields (a :: w) s'
  end.

Definition split_ws (s : str) : list str := fields [] s.

(** The decimal digits of a non-negative integer, most significant first. *)
Fixpoint digits_fuel (fuel : nat) (n : Z) (acc : str) : str :=
  match fuel with
  | O => acc
  | S fuel' =>
      let acc' := digit_char (n mod 10) :: acc in
      if n <? 10 then acc' else digits_fuel fuel' (n / 10) acc'
  end.

Definition digits (n : Z) : str := digits_fuel (S (Z.to_nat (Z.log2 n))) n [].

Definition zeros (k : Z) : str := repeat "0"%char (Z.to_nat k).

(** [f"{z:03d}"]: the sign, then zeros up to a total width of three, then
    the digits. *)
Definition format_03d (z : Z) : str :=
  let sign := if z <? 0 then ["-"%char] else [] in
  let ds := digits (Z.abs z) in
  sign ++ zeros (3 - Z.of_nat (length sign) - Z.of_nat (length ds)) ++ ds.

(** The digits of an [int()] literal: decimal digits, single underscores
    allowed between two digits.  [prev] tells that the previous character was
    a digit. *)
Fixpoint parse_digits (acc : Z) (prev : bool) (s : str) : option Z :=
  match s with
  | [] => if prev then Some acc else None
  | c :: s' =>
      if is_digit c then parse_digits (acc * 10 + digit_val c) true s'
      else if ascii_eqb c "_"%char
           then (if prev then parse_digits acc false s' else None)
           else None
  end.

(** [repr(s)] for text [s]: between single quotes, or double quotes when
    the text holds a single quote and no double quote; the quote, the
    backslash and the control characters escaped. *)
Definition QUOTE : ascii := ascii_of_nat 39.
Definition DQUOTE : ascii := ascii_of_nat 34.
Definition BACKSLASH : ascii := ascii_of_nat 92.

Definition hex_digit (n : Z) : ascii :=
  if n <? 10 then digit_char n else ascii_of_nat (Z.to_nat (87 + n)).

Definition repr_char (quote : ascii) (c : ascii) : str :=
  let n := code c in
  if ascii_eqb c quote || ascii_eqb c BACKSLASH then [BACKSLASH; c]
  else if n =? 9 then [BACKSLASH; "t"%char]
  else if n =? 10 then [BACKSLASH; "n"%char]
  else if n =? 13 then [BACKSLASH; "r"%char]
  else if (n <? 32) || (n =? 127)
       then [BACKSLASH; "x"%char; hex_digit (n / 16); hex_digit (n mod 16)]
       else [c].

Definition py_repr (s : str) : str :=
  let quote := if existsb (ascii_eqb QUOTE) s && negb (existsb (ascii_eqb DQUOTE) s)
               then DQUOTE else QUOTE in
  quote :: flat_map (repr_char quote) s ++ [quote].

(** [int(s)] for text [s], base ten.  The message of the exception quotes
    the text by the first 200 characters of its [repr]. *)
Definition py_int (s : str) : result Z :=
  let body := strip s in
  let v := match body with
           | c :: r =>
               if ascii_eqb c "-"%char then option_map Z.opp (parse_digits 0 false r)
               else if ascii_eqb c "+"%char then parse_digits 0 false r
               else parse_digits 0 false body
           | [] => None
           end in
  match v with
  | Some z => Ok z
  | None => Raise (ValueError (lit "invalid literal for int() with base 10: " ++
                               firstn 200 (py_repr s)))
  end.

(** [os.path.join(a, b)] (posixpath). *)
Definition path_join (a b : str) : str :=
  if startswith b ["/"%char] then b
  else match a with
       | [] => b
       | _ => if endswith a ["/"%char] then a ++ b else a ++ "/"%char :: b
       end.

(** [p.rfind(c)], or -1. *)
Fixpoint rfind_from (i : Z) (last : Z) (c : ascii) (s : str) : Z :=
  match s with
  | [] => last
  | a :: s' => rfind_from (i + 1) (if ascii_eqb a c then i else last) c s'
  end.

Definition rfind (c : ascii) (s : str) : Z := rfind_from 0 (-1) c s.

Definition slice_from (i : Z) (s : str) : str := skipn (Z.to_nat i) s.
Definition slice_to (i : Z) (s : str) : str := firstn (Z.to_nat i) s.

(** [os.path.basename(p)] *)
Definition basename (p : str) : str := slice_from (rfind "/"%char p + 1) p.

(** [os.path.splitext(p)[0]]: the extension starts at the last dot of the
    last component, leading dots of that component apart. *)
Definition splitext_root (p : str) : str :=
  let sepIndex := rfind "/"%char p in
  let dotIndex := rfind "."%char p in
  if sepIndex <? dotIndex then
    let leading := slice_from (sepIndex + 1) (slice_to dotIndex p) in
    if existsb (fun c => negb (ascii_eqb c "."%char)) leading
    then slice_to dotIndex p
    else p
  else p.

(** [str(z)] *)
Definition str_of_int (z : Z) : str :=
  (if z <? 0 then ["-"%char] else []) ++ digits (Z.abs z).

(** ** The note model of pretty_midi, as far as the module uses it *)

Record Note : Type := mkNote {
  velocity : Z;
  pitch : Z;
  start : Float.float;
  end_ : Float.float
}.

Record Instrument : Type := mkInstrument {
  program : Z;
  is_drum : bool;
  notes : list Note
}.

Record PrettyMIDI : Type := mkMidi {
  instruments : list Instrument
}.

(** ** The world around the module *)

(** Values the module only passes along. *)
Inductive opaque : Type := Handle (id : nat).

Inductive number : Type :=
| PyInt (z : Z)
| PyFloat (x : Float.float).

Record UploadedFile : Type := mkUpload {
  name : str;
  content : str
}.

(** What the module does to the outside, in the order it does it. *)
Inductive event : Type :=
| LogWarning (msg : str)
| LogError (msg : str)
| AudioFromFile (f : UploadedFile)
| AudioExport (path : str)
| LibrosaLoad (path : str)
| OnsetStrength
| BeatTrack
| ListDir (path : str)
| IsFile (path : str)
| MidiRead (path : str)
| CompletionCreate (prompt : str)
| MidiWrite (midi : PrettyMIDI) (path : str)
| PathExists (path : str)
| OpenRb (path : str).

Definition trace := list event.

(** The collaborators: each may raise. *)
Record Env : Type := mkEnv {
  getcwd : str;
  audio_from_file : UploadedFile -> result opaque;
  audio_export : opaque -> str -> result unit;
  librosa_load : str -> result opaque;
  onset_strength : opaque -> result opaque;
  beat_track : opaque -> result number;
  listdir : str -> result (list str);
  isfile : str -> bool;
  midi_read : str -> result PrettyMIDI;
  (** the texts of [response.choices] *)
  completion_create : str -> result (list str);
  midi_write : PrettyMIDI -> str -> result unit;
  path_exists : str -> bool;
  open_rb : str -> result opaque;
  (** [str(x)] of a float, left to the environment *)
  float_str : Float.float -> str
}.

(** ** Computations: a result and the trace so far *)

Definition M (A : Type) : Type := trace -> result A * trace.

Definition ret {A} (a : A) : M A := fun t => (Ok a, t).

Definition raise {A} (e : exn) : M A := fun t => (Raise e, t).

Definition bind {A B} (c : M A) (k : A -> M B) : M B :=
  fun t => match c t with
           | (Ok a, t') => k a t'
           | (Raise e, t') => (Raise e, t')
           end.

(** [try: c  except Exception as e: h e] *)
Definition try_except {A} (c : M A) (h : exn -> M A) : M A :=
  fun t => match c t with
           | (Ok a, t') => (Ok a, t')
           | (Raise e, t') => h e t'
           end.

Definition emit (ev : event) : M unit := fun t => (Ok tt, t ++ [ev]).

(** A call to a collaborator: recorded, then its outcome. *)
Definition call {A} (ev : event) (r : result A) : M A := fun t => (r, t ++ [ev]).

Definition lift {A} (r : result A) : M A := fun t => (r, t).

Declare Scope py_scope.
Delimit Scope py_scope with py.
Notation "x <- c ;; k" := (bind c (fun x => k))
  (at level 61, c at next level, right associativity) : py_scope.
Notation "c ;;; k" := (bind c (fun _ => k))
  (at level 61, right associativity) : py_scope.
Local Open Scope py_scope.

Definition run {A} (c : M A) : result A * trace := c [].

(** ** The module's functions *)

Definition TEMP_WAV_FILENAME : str := lit "temp.wav".
Definition MIDI_EXTENSION : str := lit ".midi".

(** [save_midi_to_disk] (lines 23-26) *)
Definition save_midi_to_disk (env : Env) (midi : PrettyMIDI) (directory filename : str)
  : M str :=
  let filepath := path_join directory filename in
  call (MidiWrite midi filepath) (midi_write env midi filepath) ;;;
  ret filepath.

(** The argument of [get_filtered_midi_files]: whatever the caller hands
    over; the function only iterates over it. *)
Inductive style_arg : Type :=
| StyleNone
| StyleStr (s : str)
| StyleSeq (l : list str).

(** [iter(style_keywords)]: text yields its characters one by one. *)
Definition iterate (a : style_arg) : result (list str) :=
  match a with
  | StyleNone => Raise (TypeError (lit "'NoneType' object is not iterable"))
  | StyleStr s => Ok (map (fun c => [c]) s)
  | StyleSeq l => Ok l
  end.

(** The list comprehension of lines 32-37.  The generator handed to [any]
    is built, and [style_keywords] asked for its iterator, only for a name
    that passed the extension test. *)
Fixpoint select_files (folder_path : str) (style_keywords : style_arg)
    (all_files : list str) : result (list str) :=
  match all_files with
  | [] => Ok []
  | f :: rest =>
      if endswith (lower f) (lit ".mid") then
        match iterate style_keywords with
        | Raise e => Raise e
        | Ok keywords =>
            let keep := existsb (fun keyword => startswith (lower f) (lower keyword))
                                keywords in
            match select_files folder_path style_keywords rest with
            | Raise e => Raise e
            | Ok l => Ok (if keep then path_join folder_path f :: l else l)
            end
        end
      else select_files folder_path style_keywords rest
  end.

(** [get_filtered_midi_files] (lines 29-37) *)
Definition get_filtered_midi_files (env : Env) (style_keywords : style_arg)
  : M (list str) :=
  let folder_path := path_join (getcwd env) (lit "mids") in
  all_files <- call (ListDir folder_path) (listdir env folder_path) ;;
  lift (select_files folder_path style_keywords all_files).

(** Lines 51-60: the note of a line that has at least three fields. *)
Definition parse_note (note_values : list str) : result Note :=
  match py_int (nth 0 note_values []) with
  | Raise e => Raise e
  | Ok pitch =>
  match py_int (nth 1 note_values []) with
  | Raise e => Raise e
  | Ok start_time =>
  match py_int (nth 2 note_values []) with
  | Raise e => Raise e
  | Ok end_time =>
  match (if 4 <=? Z.of_nat (length note_values)
         then py_int (nth 3 note_values []) else Ok 100) with
  | Raise e => Raise e
  | Ok velocity =>
  match seconds_of_ms start_time with
  | Raise e => Raise e
  | Ok start =>
  match seconds_of_ms end_time with
  | Raise e => Raise e
  | Ok end_ => Ok (mkNote velocity pitch start end_)
  end end end end end end.

(** The loop of lines 45-61 over the lines left to read; [acc] is
    [instrument.notes]. *)
Fixpoint decode_loop (note_strings : list str) (acc : list Note) : M (list Note) :=
  match note_strings with
  | [] => ret acc
  | note_string :: rest =>
      let note_values := split_ws note_string in
      if Z.of_nat (length note_values) <? 3 then
        emit (LogWarning (lit "Invalid note format: " ++ note_string ++ lit ". Skipping.")) ;;;
        decode_loop rest acc
      else
        note <- lift (parse_note note_values) ;;
        decode_loop rest (acc ++ [note])
  end.

(** [convert_text_to_midi] (lines 40-64) *)
Definition convert_text_to_midi (text_data : str) : M PrettyMIDI :=
  let note_strings := split_on NL (strip text_data) in
  ns <- decode_loop note_strings [] ;;
  ret (mkMidi [mkInstrument 0 false ns]).

(** Lines 78-82: the text of one note. *)
Definition note_line (note : Note) : result str :=
  match ms_of_seconds (start note) with
  | Raise e => Raise e
  | Ok start_time =>
  match ms_of_seconds (end_ note) with
  | Raise e => Raise e
  | Ok end_time =>
      Ok (format_03d (pitch note) ++ SP :: format_03d start_time ++ SP ::
          format_03d end_time ++ SP :: format_03d (velocity note) ++ [NL])
  end end.

(** The loops of lines 76-83.  [combined] is [combined_note_string]; what was
    appended before an exception stays appended. *)
Fixpoint notes_loop (combined : str) (ns : list Note) : str * option exn :=
  match ns with
  | [] => (combined, None)
  | note :: rest =>
      match note_line note with
      | Raise e => (combined, Some e)
      | Ok note_string => notes_loop (combined ++ note_string) rest
      end
  end.

Fixpoint instruments_loop (combined : str) (l : list Instrument) : str * option exn :=
  match l with
  | [] => (combined, None)
  | instrument :: rest =>
      match notes_loop combined (notes instrument) with
      | (combined', None) => instruments_loop combined' rest
      | stopped => stopped
      end
  end.

Definition processing_error (midi_file_path : str) (e : exn) : event :=
  LogError (lit "Error processing MIDI file '" ++ midi_file_path ++ lit "': " ++ exn_str e).

(** The body of the loop of lines 70-86 for a path that is a file: the
    [try] block, then the [except] clause when something was raised. *)
Definition process_file (env : Env) (combined : str) (midi_file_path : str) : M str :=
  r <- try_except
         (midi <- call (MidiRead midi_file_path) (midi_read env midi_file_path) ;;
          ret (instruments_loop combined (instruments midi)))
         (fun e => ret (combined, Some e)) ;;
  match snd r with
  | None => ret (fst r)
  | Some e => emit (processing_error midi_file_path e) ;;; ret (fst r)
  end.

Fixpoint files_loop (env : Env) (combined : str) (midi_file_paths : list str) : M str :=
  match midi_file_paths with
  | [] => ret combined
  | midi_file_path :: rest =>
      is_file <- call (IsFile midi_file_path) (Ok (isfile env midi_file_path)) ;;
      if negb is_file then files_loop env combined rest
      else
        combined' <- process_file env combined midi_file_path ;;
        files_loop env combined' rest
  end.

(** [generate_midi_text_from_files] (lines 67-88) *)
Definition generate_midi_text_from_files (env : Env) (midi_file_paths : list str) : M str :=
  files_loop env [] midi_file_paths.

Definition str_of_number (env : Env) (n : number) : str :=
  match n with
  | PyInt z => str_of_int z
  | PyFloat x => float_str env x
  end.

Definition gpt3_prompt (env : Env) (bpm : number) (text : str) : str :=
  lit "Generate new MIDI data with a BPM of " ++ str_of_number env bpm ++
  lit " using the following data as a template:" ++ [NL; NL] ++ text ++ [NL; NL] ++
  lit "Please provide the new MIDI data with the same number of lines.".

(** [get_midi_modifications_from_gpt3] (lines 91-101) *)
Definition get_midi_modifications_from_gpt3 (env : Env) (bpm : number) (text : str) : M str :=
  let prompt := gpt3_prompt env bpm text in
  try_except
    (choices <- call (CompletionCreate prompt) (completion_create env prompt) ;;
     match choices with
     | first :: _ => ret (strip first)
     | [] => raise (IndexError (lit "list index out of range"))
     end)
    (fun e =>
       emit (LogError (lit "Failed to get GPT-3 modifications: " ++ exn_str e)) ;;;
       ret []).

(** [get_bpm_from_wav] (lines 104-112) *)
Definition get_bpm_from_wav (env : Env) (wav_file : str) : M number :=
  try_except
    (y <- call (LibrosaLoad wav_file) (librosa_load env wav_file) ;;
     onset_env <- call OnsetStrength (onset_strength env y) ;;
     call BeatTrack (beat_track env onset_env))
    (fun e =>
       emit (LogError (lit "Failed to extract BPM from WAV: " ++ exn_str e)) ;;;
       ret (PyInt 0)).

(** ** The upload view *)

Record Request : Type := mkRequest {
  method : str;
  FILES : list (str * UploadedFile);
  POST : list (str * str)
}.

Definition str_eqb (a b : str) : bool :=
  if list_eq_dec ascii_dec a b then true else false.

Fixpoint lookup {V} (key : str) (d : list (str * V)) : option V :=
  match d with
  | [] => None
  | (k, v) :: d' => if str_eqb k key then Some v else lookup key d'
  end.

Inductive Response : Type :=
| JsonResponse (body : list (str * str)) (status : Z)
| HttpResponse (body : str) (status : Z)
| FileResponse (file : opaque) (content_type : str) (headers : list (str * str)).

Definition status_of (r : Response) : Z :=
  match r with
  | JsonResponse _ s | HttpResponse _ s => s
  | FileResponse _ _ _ => 200
  end.

(** [request.POST.get('styleList')]: the text of the field, or [None]. *)
Definition style_of_post (v : option str) : style_arg :=
  match v with
  | Some s => StyleStr s
  | None => StyleNone
  end.

(** Lines 136-141: the answer, once the sequence is written. *)
Definition respond (env : Env) (saved_filepath : str) : M Response :=
  found <- call (PathExists saved_filepath) (Ok (path_exists env saved_filepath)) ;;
  if (found : bool) then
    file <- call (OpenRb saved_filepath) (open_rb env saved_filepath) ;;
    ret (FileResponse file (lit "audio/x-midi")
           [(lit "Content-Disposition",
             lit "attachment; filename='" ++ basename saved_filepath ++ lit "'")])
  else
    ret (HttpResponse (lit "File not found") 404).

(** Lines 132-141: from the generated text on. *)
Definition decode_and_persist (env : Env) (uploaded_file : UploadedFile)
    (gpt3_midi_text : str) : M Response :=
  midi_data <- convert_text_to_midi gpt3_midi_text ;;
  saved_filepath <-
    save_midi_to_disk env midi_data (getcwd env)
      (splitext_root (name uploaded_file) ++ MIDI_EXTENSION) ;;
  respond env saved_filepath.

(** Lines 130-141: from the selected corpus files on. *)
Definition encode_and_generate (env : Env) (uploaded_file : UploadedFile)
    (bpm : number) (midi_files : list str) : M Response :=
  midi_text_sample <- generate_midi_text_from_files env midi_files ;;
  gpt3_midi_text <- get_midi_modifications_from_gpt3 env bpm midi_text_sample ;;
  decode_and_persist env uploaded_file gpt3_midi_text.

(** The [try] block of lines 122-141. *)
Definition upload_body (env : Env) (request : Request) : M Response :=
  uploaded_file <-
    lift (match lookup (lit "file") (FILES request) with
          | Some f => Ok f
          | None => Raise (KeyError (lit "file"))
          end) ;;
  let style_list := style_of_post (lookup (lit "styleList") (POST request)) in
  audio <- call (AudioFromFile uploaded_file) (audio_from_file env uploaded_file) ;;
  call (AudioExport TEMP_WAV_FILENAME) (audio_export env audio TEMP_WAV_FILENAME) ;;;
  bpm <- get_bpm_from_wav env TEMP_WAV_FILENAME ;;
  midi_files <- get_filtered_midi_files env style_list ;;
  encode_and_generate env uploaded_file bpm midi_files.

(** Lines 143-144: the [except] clause of the view. *)
Definition server_error (e : exn) : M Response :=
  ret (JsonResponse [(lit "error", exn_str e)] 500).

(** [upload] (lines 116-144) *)
Definition upload (env : Env) (request : Request) : M Response :=
  if negb (str_eqb (method request) (lit "POST")) then
    ret (JsonResponse [(lit "error", lit "Only POST method is allowed")] 405)
  else
    try_except (upload_body env request) server_error.

(** * Vocabulary of the properties *)

Definition no_space (c : ascii) : Prop := is_space c = false.
Definition step (a : Z) (c : ascii) : Z := a * 10 + digit_val c.

(** The characters of a formatted field. *)
Definition field_char (c : ascii) : Prop := is_digit c = true \/ c = "-"%char.

Definition no_NL (b : str) : Prop := Forall (fun c => ascii_eqb c NL = false) b.

Definition clean_edges (b : str) : Prop :=
  (exists c r, b = c :: r /\ no_space c) /\ (exists r c, b = r ++ [c] /\ no_space c).

Fixpoint join_lines (bs : list str) : str :=
  match bs with
  | [] => []
  | b :: bs' => match bs' with
                | [] => b
                | _ :: _ => b ++ NL :: join_lines bs'
                end
  end.

Definition with_NL (b : str) : str := b ++ [NL].

(** The text of a note without its line break (line 82). *)
Definition line_body (p s e v : Z) : str :=
  format_03d p ++ SP :: format_03d s ++ SP :: format_03d e ++ SP :: format_03d v.

(** [b] is the line the encoder writes for [n]. *)
Definition encoded (n : Note) (b : str) : Prop :=
  exists st en,
    ms_of_seconds (start n) = Ok st /\ ms_of_seconds (end_ n) = Ok en /\
    b = line_body (pitch n) st en (velocity n).

(** [n] is the note the decoder reads from the line [b]. *)
Definition decoded (b : str) (n : Note) : Prop :=
  (3 <= length (split_ws b))%nat /\ parse_note (split_ws b) = Ok n.

(** What a note becomes when its times go to integer milliseconds and back
    to seconds. *)
Definition requantize (n : Note) : result Note :=
  match ms_of_seconds (start n) with
  | Raise e => Raise e
  | Ok st =>
  match ms_of_seconds (end_ n) with
  | Raise e => Raise e
  | Ok en =>
  match seconds_of_ms st with
  | Raise e => Raise e
  | Ok s' =>
  match seconds_of_ms en with
  | Raise e => Raise e
  | Ok e' => Ok (mkNote (velocity n) (pitch n) s' e')
  end end end end.

(** Every path names a file that reads as the sequence next to it. *)
Definition corpus_ok (env : Env) (paths : list str) (midis : list PrettyMIDI) : Prop :=
  Forall2 (fun p m => isfile env p = true /\ midi_read env p = Ok m) paths midis.

(** The notes of a corpus, in the order the encoder visits them. *)
Definition corpus_notes (midis : list PrettyMIDI) : list Note :=
  flat_map (fun m => flat_map notes (instruments m)) midis.

Definition reads_of (paths : list str) : trace :=
  flat_map (fun p => [IsFile p; MidiRead p]) paths.

(** ** Sample data *)

Module Sample.

Definition sec (ms : Z) : Float.float := Float.div (Float.of_Z ms) f1000.

Definition note1 : Note := mkNote 90 60 (sec 0) (sec 500).
Definition note2 : Note := mkNote 100 64 (sec 999) (sec 123456).
Definition note3 : Note := mkNote 7 127 (sec 1001) (sec 2002).

Definition midi1 : PrettyMIDI :=
  mkMidi [mkInstrument 0 false [note1]; mkInstrument 9 true [note2]].

Definition listing : list str :=
  map lit ["jazz_1.mid"; "rock_2.mid"; "Jazz_solo.mid"; "blues.txt"]%string.

Definition wav : UploadedFile := mkUpload (lit "take.wav") (lit "RIFF").

(** A world in which every collaborator answers, and the completion service
    echoes a fixed text. *)
Definition env0 : Env := {|
  getcwd := lit "/srv/app";
  audio_from_file := fun _ => Ok (Handle 0);
  audio_export := fun _ _ => Ok tt;
  librosa_load := fun _ => Ok (Handle 1);
  onset_strength := fun _ => Ok (Handle 2);
  beat_track := fun _ => Ok (PyFloat (Float.of_Z 120));
  listdir := fun _ => Ok listing;
  isfile := fun _ => true;
  midi_read := fun _ => Ok midi1;
  completion_create := fun _ => Ok [lit "060 000 500 090"];
  midi_write := fun _ _ => Ok tt;
  path_exists := fun _ => true;
  open_rb := fun _ => Ok (Handle 3);
  float_str := fun _ => lit "120.0"
|}.

(** The same world with some collaborator failing. *)
Definition with_failures (load : str -> result opaque)
    (complete : str -> result (list str)) (exists_ : str -> bool) : Env := {|
  getcwd := getcwd env0;
  audio_from_file := audio_from_file env0;
  audio_export := audio_export env0;
  librosa_load := load;
  onset_strength := onset_strength env0;
  beat_track := beat_track env0;
  listdir := listdir env0;
  isfile := isfile env0;
  midi_read := midi_read env0;
  completion_create := complete;
  midi_write := midi_write env0;
  path_exists := exists_;
  open_rb := open_rb env0;
  float_str := float_str env0
|}.

Definition env_tempo_down : Env :=
  with_failures (fun _ => Raise (ExternalError (lit "no backend")))
                (completion_create env0) (path_exists env0).

Definition env_service_down : Env :=
  with_failures (librosa_load env0)
                (fun _ => Raise (ExternalError (lit "service unavailable")))
                (path_exists env0).

Definition env_output_lost : Env :=
  with_failures (librosa_load env0) (completion_create env0) (fun _ => false).

Definition post_request : Request :=
  mkRequest (lit "POST") [(lit "file", wav)] [(lit "styleList", lit "jazz")].


End Sample.

(** [ms_there_and_back] gives [t] or [t - 1] on the [n] integers from [t]. *)
Fixpoint within_one_from (n : nat) (t : Z) : bool :=
  match n with
  | O => true
  | S n' =>
      match ms_there_and_back t with
      | Ok r => ((r =? t) || (r =? t - 1)) && within_one_from n' (t + 1)
      | Raise _ => false
      end
  end.

Definition representative_ms : list Z := [0; 1; 999; 1000; 123456].

(** The times of [n] are the seconds of representative millisecond values. *)
Definition representative_times (n : Note) : Prop :=
  exists s e, In s representative_ms /\ In e representative_ms /\
              seconds_of_ms s = Ok (start n) /\ seconds_of_ms e = Ok (end_ n).

(** [q] holds the integer milliseconds of the start and the end of [n]. *)
Definition ms_times (n : Note) (q : Z * Z) : Prop :=
  ms_of_seconds (start n) = Ok (fst q) /\ ms_of_seconds (end_ n) = Ok (snd q).

(** The line of a note: four fields, one blank between two fields, a line
    break at the end. *)
Definition note_text (nq : Note * (Z * Z)) : str :=
  let '(n, (s, e)) := nq in with_NL (line_body (pitch n) s e (velocity n)).

(** The stages of the pipeline an event belongs to. *)
Inductive stage : Type :=
| Logging | DecodeAudio | EstimateTempo | SelectCorpus | EncodeReference
| Generate | Persist | Respond.

Definition stage_of (ev : event) : stage :=
  match ev with
  | LogWarning _ | LogError _ => Logging
  | AudioFromFile _ | AudioExport _ => DecodeAudio
  | LibrosaLoad _ | OnsetStrength | BeatTrack => EstimateTempo
  | ListDir _ => SelectCorpus
  | IsFile _ | MidiRead _ => EncodeReference
  | CompletionCreate _ => Generate
  | MidiWrite _ _ => Persist
  | PathExists _ | OpenRb _ => Respond
  end.

(** An event of stage [s], or a log record. *)
Definition within (s : stage) (ev : event) : Prop :=
  stage_of ev = s \/ stage_of ev = Logging.

(** [c] only appends to the trace, and only events that satisfy [S]. *)
Definition emits {A} (S : event -> Prop) (c : M A) : Prop :=
  forall t, exists r d, c t = (r, t ++ d) /\ Forall S d.

(** The same, and [c] never raises. *)
Definition total {A} (S : event -> Prop) (c : M A) : Prop :=
  forall t, exists a d, c t = (Ok a, t ++ d) /\ Forall S d.

(** The test of lines 35-36 on a name, for the keywords [kws]. *)
Definition keeps (kws : list str) (f : str) : bool :=
  endswith (lower f) (lit ".mid") &&
  existsb (fun keyword => startswith (lower f) (lower keyword)) kws.

Definition corpus_folder (env : Env) : str := path_join (getcwd env) (lit "mids").

(** The keywords a text yields when it is iterated: its characters. *)
Definition characters (s : str) : list str := map (fun c => [c]) s.

Definition is_post (request : Request) : Prop :=
  str_eqb (method request) (lit "POST") = true.

(** The request carries the file [f], and decoding and exporting it work. *)
Definition audio_ready (env : Env) (request : Request) (f : UploadedFile) : Prop :=
  is_post request /\
  lookup (lit "file") (FILES request) = Some f /\
  exists audio, audio_from_file env f = Ok audio /\
                audio_export env audio TEMP_WAV_FILENAME = Ok tt.


Definition any_event (ev : event) : Prop := True.

Definition before_response (ev : event) : Prop := stage_of ev <> Respond.

(** One of the calls of lines 106-108 raises [e]. *)
Definition tempo_primitive_raises (env : Env) (wav_file : str) (e : exn) : Prop :=
  librosa_load env wav_file = Raise e \/
  exists y, librosa_load env wav_file = Ok y /\
            (onset_strength env y = Raise e \/
             exists onset_env, onset_strength env y = Ok onset_env /\
                               beat_track env onset_env = Raise e).

Definition empty_part : PrettyMIDI := mkMidi [mkInstrument 0 false []].

Definition output_path (env : Env) (f : UploadedFile) : str :=
  path_join (getcwd env) (splitext_root (name f) ++ MIDI_EXTENSION).

Definition not_found : Response := HttpResponse (lit "File not found") 404.

Definition no_response_yet (t : trace) : Prop := Forall before_response t.

(** Whenever [c] stops on a trace that records the check of [p], its
    result is the plain "File not found" answer. *)
Definition answers_not_found (p : str) (c : M Response) : Prop :=
  forall t r t', c t = (r, t') -> no_response_yet t -> In (PathExists p) t' ->
                 r = Ok not_found.

(** ** Vocabulary of the further properties *)

(** Every value [c] returns satisfies [P]. *)
Definition returns {A} (P : A -> Prop) (c : M A) : Prop :=
  forall t a t', c t = (Ok a, t') -> P a.

(** The answers of the [try] block: the file, or "File not found". *)
Definition file_or_not_found (r : Response) : Prop :=
  status_of r = 200 \/ status_of r = 404.

(** The order in which the view goes through its stages. *)
Definition pipeline_order : list stage :=
  [DecodeAudio; EstimateTempo; SelectCorpus; EncodeReference; Generate; Persist; Respond].

(** [d] is made of consecutive runs of events, one run per stage of [l],
    in the order of [l]; a run may be empty and may hold log records. *)
Fixpoint staged (l : list stage) (d : trace) : Prop :=
  match l with
  | [] => d = []
  | s :: l' => exists d1 d2, d = d1 ++ d2 /\ Forall (within s) d1 /\ staged l' d2
  end.

Definition emits_staged {A} (l : list stage) (c : M A) : Prop :=
  forall t, exists r d, c t = (r, t ++ d) /\ staged l d.






(** The test of line 47, negated: the line has at least three fields. *)
Definition has_three (l : str) : bool := 3 <=? Z.of_nat (length (split_ws l)).

(** The lines [convert_text_to_midi] reads from a text (line 41). *)
Definition lines_of (text_data : str) : list str := split_on NL (strip text_data).

(** The first test of line 35 on a name. *)
Definition is_mid (f : str) : bool := endswith (lower f) (lit ".mid").

Definition not_iterable : exn := TypeError (lit "'NoneType' object is not iterable").

(** The note [parse_note] builds from integer fields (lines 55-60), when the
    times convert to floats. *)
Definition note_of_fields (pitch start_time end_time velocity : Z) : Note :=
  mkNote velocity pitch
         (Float.div (Float.of_Z start_time) f1000)
         (Float.div (Float.of_Z end_time) f1000).

(** The note read back from the line written for [n] with the times [q]. *)
Definition read_back (nq : Note * (Z * Z)) : Note :=
  note_of_fields (pitch (fst nq)) (fst (snd nq)) (snd (snd nq)) (velocity (fst nq)).

(** Both times are below 2^53 milliseconds in absolute value. *)
Definition moderate (q : Z * Z) : Prop :=
  Z.abs (fst q) < 2 ^ 53 /\ Z.abs (snd q) < 2 ^ 53.

(** More sample worlds. *)
Module More.

(** No path of the corpus is a file. *)
Definition env_no_files : Env := {|
  getcwd := getcwd Sample.env0;
  audio_from_file := audio_from_file Sample.env0;
  audio_export := audio_export Sample.env0;
  librosa_load := librosa_load Sample.env0;
  onset_strength := onset_strength Sample.env0;
  beat_track := beat_track Sample.env0;
  listdir := listdir Sample.env0;
  isfile := fun _ => false;
  midi_read := midi_read Sample.env0;
  completion_create := completion_create Sample.env0;
  midi_write := midi_write Sample.env0;
  path_exists := path_exists Sample.env0;
  open_rb := open_rb Sample.env0;
  float_str := float_str Sample.env0
|}.


End More.



(** The character [c] does not occur in [s]. *)
Definition no_char (c : ascii) (s : str) : Prop :=
  Forall (fun a => ascii_eqb a c = false) s.

Definition not_a_dot (c : ascii) : bool := negb (ascii_eqb c "."%char).

(** The record of line 48 for a skipped line. *)
Definition skip_warning (note_string : str) : event :=
  LogWarning (lit "Invalid note format: " ++ note_string ++ lit ". Skipping.").

Definition is_short (l : str) : bool := negb (has_three l).

(** A second trip through seconds changes nothing on the [n] integers from
    [t]. *)
Fixpoint stable_from (n : nat) (t : Z) : bool :=
  match n with
  | O => true
  | S n' =>
      match ms_there_and_back t with
      | Ok r =>
          match ms_there_and_back r with
          | Ok r' => (r' =? r) && stable_from n' (t + 1)
          | Raise _ => false
          end
      | Raise _ => false
      end
  end.

(** More sample worlds. *)
Module Broken.

(** The uploaded audio cannot be decoded. *)
Definition env_bad_audio : Env := {|
  getcwd := getcwd Sample.env0;
  audio_from_file := fun _ => Raise (ExternalError (lit "could not decode"));
  audio_export := audio_export Sample.env0;
  librosa_load := librosa_load Sample.env0;
  onset_strength := onset_strength Sample.env0;
  beat_track := beat_track Sample.env0;
  listdir := listdir Sample.env0;
  isfile := isfile Sample.env0;
  midi_read := midi_read Sample.env0;
  completion_create := completion_create Sample.env0;
  midi_write := midi_write Sample.env0;
  path_exists := path_exists Sample.env0;
  open_rb := open_rb Sample.env0;
  float_str := float_str Sample.env0
|}.


Definition post_without_style : Request :=
  mkRequest (lit "POST") [(lit "file", Sample.wav)] [].

End Broken.

(** * Properties *)

(** ** Characters and digits *)

Lemma digit_char_is_digit (d : Z) : 0 <= d <= 9 -> is_digit (digit_char d) = true.
Proof.
  intros H.
  assert (E : d = 0 \/ d = 1 \/ d = 2 \/ d = 3 \/ d = 4 \/ d = 5 \/ d = 6 \/
              d = 7 \/ d = 8 \/ d = 9) by lia.
  repeat (destruct E as [-> | E]; [reflexivity |]); subst; reflexivity.
Qed.

Lemma digit_val_char (d : Z) : 0 <= d <= 9 -> digit_val (digit_char d) = d.
Proof.
  intros H.
  assert (E : d = 0 \/ d = 1 \/ d = 2 \/ d = 3 \/ d = 4 \/ d = 5 \/ d = 6 \/
              d = 7 \/ d = 8 \/ d = 9) by lia.
  repeat (destruct E as [-> | E]; [reflexivity |]); subst; reflexivity.
Qed.

Lemma code_range (c : ascii) : 0 <= code c < 256.
Proof.
  unfold code. pose proof (nat_ascii_bounded c). lia.
Qed.

Lemma code_inj (a b : ascii) : code a = code b -> a = b.
Proof.
  unfold code. intros H.
  rewrite <- (ascii_nat_embedding a), <- (ascii_nat_embedding b).
  f_equal. lia.
Qed.

Lemma ascii_eqb_code (a b : ascii) : ascii_eqb a b = (code a =? code b).
Proof.
  unfold ascii_eqb. destruct (Ascii.eqb_spec a b) as [-> | N].
  - symmetry. apply Z.eqb_refl.
  - symmetry. apply Z.eqb_neq. intros E. apply N, code_inj, E.
Qed.

Lemma digit_no_space (c : ascii) : is_digit c = true -> no_space c.
Proof.
  unfold is_digit, no_space, is_space. intros H. lia.
Qed.

Lemma digit_not_char (c x : ascii) :
  is_digit c = true -> is_digit x = false -> ascii_eqb c x = false.
Proof.
  intros Hc Hx. rewrite ascii_eqb_code. apply Z.eqb_neq. intros E.
  apply code_inj in E. congruence.
Qed.

(** ** Printing and reading integers *)

Lemma parse_digits_all (l : str) :
  Forall (fun c => is_digit c = true) l ->
  forall acc prev, l <> [] \/ prev = true ->
  parse_digits acc prev l = Some (fold_left step l acc).
Proof.
  induction 1 as [| c l Hc _ IH]; intros acc prev Hne; simpl.
  - destruct Hne as [Hne | ->]; [congruence | reflexivity].
  - rewrite Hc. apply IH. now right.
Qed.

Lemma digits_fuel_spec (fuel : nat) :
  forall n acc, 0 <= n < 2 ^ Z.of_nat fuel ->
  exists D, digits_fuel fuel n acc = D ++ acc /\
            Forall (fun c => is_digit c = true) D /\
            fold_left step D 0 = n /\
            (fuel <> O -> D <> []).
Proof.
  induction fuel as [| fuel IH]; intros n acc Hn.
  - exists []. simpl in *. repeat split; auto. lia.
  - cbn [digits_fuel]. pose proof (Z.mod_pos_bound n 10 ltac:(lia)) as Hm.
    destruct (Z.ltb_spec n 10) as [Hlt | Hge].
    + exists [digit_char (n mod 10)]. rewrite Z.mod_small by lia.
      repeat split.
      * constructor; [apply digit_char_is_digit; lia | constructor].
      * cbn. unfold step. rewrite digit_val_char; lia.
      * discriminate.
    + assert (Hq : 0 <= n / 10 < 2 ^ Z.of_nat fuel).
      { split; [apply Z.div_pos; lia |].
        apply Z.div_lt_upper_bound; [lia |].
        rewrite Nat2Z.inj_succ, Z.pow_succ_r in Hn by lia. lia. }
      destruct (IH (n / 10) (digit_char (n mod 10) :: acc) Hq)
        as (D & HD & Hdig & Hval & _).
      exists (D ++ [digit_char (n mod 10)]). repeat split.
      * rewrite HD, <- app_assoc. reflexivity.
      * apply Forall_app. split; [exact Hdig |].
        constructor; [apply digit_char_is_digit; lia | constructor].
      * rewrite fold_left_app, Hval. cbn. unfold step.
        rewrite digit_val_char by lia.
        pose proof (Z.div_mod n 10 ltac:(lia)). lia.
      * intros _ E. apply app_eq_nil in E. destruct E; discriminate.
Qed.

Lemma digits_spec (n : Z) :
  0 <= n ->
  Forall (fun c => is_digit c = true) (digits n) /\
  fold_left step (digits n) 0 = n /\ digits n <> [].
Proof.
  intros Hn. unfold digits.
  assert (Hb : 0 <= n < 2 ^ Z.of_nat (S (Z.to_nat (Z.log2 n)))).
  { split; [exact Hn |].
    rewrite Nat2Z.inj_succ, Z2Nat.id by apply Z.log2_nonneg.
    destruct (Z.eq_dec n 0) as [-> | Hz]; [reflexivity |].
    apply Z.log2_spec. lia. }
  destruct (digits_fuel_spec _ n [] Hb) as (D & HD & Hdig & Hval & Hne).
  rewrite HD, app_nil_r. repeat split; auto.
Qed.

Lemma zeros_digits (k : Z) : Forall (fun c => is_digit c = true) (zeros k).
Proof.
  unfold zeros. induction (Z.to_nat k); simpl; constructor; auto.
Qed.

Lemma zeros_value (k : Z) : fold_left step (zeros k) 0 = 0.
Proof.
  unfold zeros. induction (Z.to_nat k); simpl; auto.
Qed.

Lemma lstrip_head (c : ascii) (s : str) : no_space c -> lstrip (c :: s) = c :: s.
Proof.
  intros H. simpl. now rewrite H.
Qed.

Lemma strip_clean (s : str) : Forall no_space s -> strip s = s.
Proof.
  intros H. unfold strip, rstrip.
  assert (L : forall l, Forall no_space l -> lstrip l = l).
  { intros l Hl. destruct Hl; [reflexivity | now apply lstrip_head]. }
  rewrite (L s H), L by now apply Forall_rev.
  apply rev_involutive.
Qed.

Lemma field_char_no_space (c : ascii) : field_char c -> no_space c.
Proof.
  intros [H | ->]; [now apply digit_no_space | reflexivity].
Qed.

Lemma field_char_not_NL (c : ascii) : field_char c -> ascii_eqb c NL = false.
Proof.
  intros [H | ->]; [| reflexivity].
  apply digit_not_char; [exact H | reflexivity].
Qed.

Lemma format_03d_split (z : Z) :
  exists body,
    format_03d z = (if z <? 0 then ["-"%char] else []) ++ body /\
    Forall (fun c => is_digit c = true) body /\
    body <> [] /\
    fold_left step body 0 = Z.abs z.
Proof.
  unfold format_03d.
  destruct (digits_spec (Z.abs z) (Z.abs_nonneg z)) as (Hd & Hv & Hne).
  eexists. split; [reflexivity |]. repeat split.
  - apply Forall_app. split; [apply zeros_digits | exact Hd].
  - intros E. apply app_eq_nil in E. tauto.
  - rewrite fold_left_app, zeros_value. exact Hv.
Qed.

Lemma format_03d_chars (z : Z) : Forall field_char (format_03d z).
Proof.
  destruct (format_03d_split z) as (body & -> & Hd & _).
  apply Forall_app. split.
  - destruct (z <? 0); constructor; [now right | constructor].
  - eapply Forall_impl; [| exact Hd]. intros c Hc. now left.
Qed.

Lemma format_03d_nonempty (z : Z) : format_03d z <> [].
Proof.
  destruct (format_03d_split z) as (body & -> & _ & Hne & _).
  intros E. apply app_eq_nil in E. tauto.
Qed.

Lemma format_03d_width (z : Z) : (3 <= length (format_03d z))%nat.
Proof.
  unfold format_03d, zeros. rewrite !length_app, repeat_length. lia.
Qed.

(** Reading a formatted integer gives the integer back: the padding adds
    zeros only, and no digit is dropped. *)
Lemma py_int_format_03d (z : Z) : py_int (format_03d z) = Ok z.
Proof.
  unfold py_int.
  rewrite strip_clean
    by (eapply Forall_impl; [apply field_char_no_space | apply format_03d_chars]).
  destruct (format_03d_split z) as (body & -> & Hd & Hne & Hv).
  destruct (Z.ltb_spec z 0) as [Hneg | Hpos]; cbn [app].
  - change (ascii_eqb "-" "-") with true. cbn iota.
    rewrite (parse_digits_all body Hd) by now left.
    rewrite Hv. cbn. f_equal. lia.
  - destruct body as [| c r]; [congruence |].
    pose proof (Forall_inv Hd) as Hc.
    rewrite (digit_not_char c "-") by (auto; reflexivity).
    rewrite (digit_not_char c "+") by (auto; reflexivity).
    rewrite (parse_digits_all (c :: r) Hd) by (left; discriminate).
    rewrite Hv. f_equal. lia.
Qed.

(** ** Splitting a line into fields *)

Lemma fields_word (w' : str) :
  Forall no_space w' ->
  forall w rest, fields w (w' ++ rest) = fields (rev w' ++ w) rest.
Proof.
  induction 1 as [| c w' Hc _ IH]; intros w rest; [reflexivity |].
  cbn [app fields]. rewrite Hc, IH. cbn [rev]. now rewrite <- app_assoc.
Qed.

Lemma fields_blank (c : ascii) (w rest : str) :
  is_space c = true -> w <> [] ->
  fields w (c :: rest) = rev w :: fields [] rest.
Proof.
  intros Hc Hw. cbn [fields]. rewrite Hc. destruct w; congruence.
Qed.

Lemma split_ws_four (a b c d : str) :
  Forall no_space a -> Forall no_space b -> Forall no_space c -> Forall no_space d ->
  a <> [] -> b <> [] -> c <> [] -> d <> [] ->
  split_ws (a ++ SP :: b ++ SP :: c ++ SP :: d) = [a; b; c; d].
Proof.
  intros Ha Hb Hc Hd Na Nb Nc Nd. unfold split_ws.
  assert (R : forall x : str, x <> [] -> rev x ++ [] <> []).
  { intros x Hx E. rewrite app_nil_r in E.
    apply (f_equal (@rev ascii)) in E. rewrite rev_involutive in E. auto. }
  rewrite (fields_word a Ha), fields_blank by (auto; reflexivity).
  rewrite (fields_word b Hb), fields_blank by (auto; reflexivity).
  rewrite (fields_word c Hc), fields_blank by (auto; reflexivity).
  rewrite <- (app_nil_r d), (fields_word d Hd). cbn [fields].
  rewrite !app_nil_r, !rev_involutive.
  destruct (rev d) eqn:E; [| reflexivity].
  apply (f_equal (@rev ascii)) in E. rewrite rev_involutive in E. contradiction.
Qed.

(** ** Splitting a text into lines *)

Lemma concat_with_NL (bs : list str) :
  bs <> [] -> concat (map with_NL bs) = join_lines bs ++ [NL].
Proof.
  induction bs as [| b bs IH]; [congruence | intros _].
  destruct bs as [| b' bs].
  - cbn. unfold with_NL. now rewrite app_nil_r.
  - change (concat (map with_NL (b :: b' :: bs)))
      with (with_NL b ++ concat (map with_NL (b' :: bs))).
    rewrite IH by discriminate.
    change (join_lines (b :: b' :: bs)) with (b ++ NL :: join_lines (b' :: bs)).
    unfold with_NL. now rewrite <- !app_assoc.
Qed.

Lemma split_on_line (b rest : str) :
  no_NL b -> split_on NL (b ++ NL :: rest) = b :: split_on NL rest.
Proof.
  induction 1 as [| c b Hc _ IH]; cbn [app split_on].
  - reflexivity.
  - rewrite Hc, IH. reflexivity.
Qed.

Lemma split_on_last (b : str) : no_NL b -> split_on NL b = [b].
Proof.
  induction 1 as [| c b Hc _ IH]; cbn [split_on]; [reflexivity |].
  now rewrite Hc, IH.
Qed.

Lemma split_join_lines (bs : list str) :
  bs <> [] -> Forall no_NL bs -> split_on NL (join_lines bs) = bs.
Proof.
  induction bs as [| b bs IH]; [congruence | intros _ H].
  inversion H as [| ? ? Hb Hbs]; subst.
  destruct bs as [| b' bs].
  - cbn. now apply split_on_last.
  - change (join_lines (b :: b' :: bs)) with (b ++ NL :: join_lines (b' :: bs)).
    rewrite split_on_line by assumption.
    now rewrite IH by (auto; discriminate).
Qed.

Lemma join_lines_last (bs : list str) :
  bs <> [] -> Forall clean_edges bs ->
  exists r c, join_lines bs = r ++ [c] /\ no_space c.
Proof.
  induction bs as [| b bs IH]; [congruence | intros _ H].
  inversion H as [| ? ? Hb Hbs]; subst.
  destruct bs as [| b' bs].
  - cbn. apply Hb.
  - destruct IH as (r & c & E & Hc); [discriminate | assumption |].
    exists (b ++ NL :: r), c. split; [| exact Hc].
    change (join_lines (b :: b' :: bs)) with (b ++ NL :: join_lines (b' :: bs)).
    rewrite E, <- app_assoc. reflexivity.
Qed.

Lemma join_lines_head (bs : list str) :
  bs <> [] -> Forall clean_edges bs ->
  exists c r, join_lines bs = c :: r /\ no_space c.
Proof.
  destruct bs as [| b bs]; [congruence | intros _ H].
  inversion H as [| ? ? [(c & r & -> & Hc) _] _]; subst.
  destruct bs; cbn; eauto.
Qed.

Lemma rstrip_last (r : str) (c : ascii) : no_space c -> rstrip (r ++ [c]) = r ++ [c].
Proof.
  intros Hc. unfold rstrip. rewrite rev_app_distr. cbn [rev app].
  rewrite lstrip_head by exact Hc.
  cbn [rev]. now rewrite rev_involutive.
Qed.

Lemma rstrip_NL (s : str) : rstrip (s ++ [NL]) = rstrip s.
Proof.
  unfold rstrip. rewrite rev_app_distr. reflexivity.
Qed.

(** The lines of a text made of clean lines, each followed by a line break,
    are these lines. *)
Lemma lines_of_text (bs : list str) :
  bs <> [] -> Forall clean_edges bs -> Forall no_NL bs ->
  split_on NL (strip (concat (map with_NL bs))) = bs.
Proof.
  intros Hne Hedges Hnl.
  rewrite concat_with_NL by exact Hne.
  destruct (join_lines_head bs Hne Hedges) as (c & r & E & Hc).
  destruct (join_lines_last bs Hne Hedges) as (r' & c' & E' & Hc').
  unfold strip. rewrite E. cbn [app]. rewrite lstrip_head by exact Hc.
  change (c :: r ++ [NL]) with ((c :: r) ++ [NL]).
  rewrite <- E, rstrip_NL, E', rstrip_last, <- E' by exact Hc'.
  now apply split_join_lines.
Qed.

(** ** The codec *)

Lemma note_line_encoded (n : Note) (b : str) :
  encoded n b -> note_line n = Ok (with_NL b).
Proof.
  intros (st & en & Hs & He & ->). unfold note_line, with_NL, line_body.
  rewrite Hs, He. f_equal. repeat (rewrite <- app_assoc; cbn [app]). reflexivity.
Qed.

Lemma line_body_fields (p s e v : Z) :
  split_ws (line_body p s e v) = [format_03d p; format_03d s; format_03d e; format_03d v].
Proof.
  assert (C : forall z, Forall no_space (format_03d z)).
  { intros z. eapply Forall_impl; [apply field_char_no_space | apply format_03d_chars]. }
  apply split_ws_four; auto using format_03d_nonempty.
Qed.

Lemma line_body_no_NL (p s e v : Z) : no_NL (line_body p s e v).
Proof.
  assert (C : forall z, no_NL (format_03d z)).
  { intros z. eapply Forall_impl; [apply field_char_not_NL | apply format_03d_chars]. }
  unfold line_body, no_NL.
  repeat (apply Forall_app; split; [apply C |]; constructor; [reflexivity |]).
  apply C.
Qed.

Lemma format_03d_head (z : Z) : exists c r, format_03d z = c :: r /\ no_space c.
Proof.
  pose proof (format_03d_chars z) as H. pose proof (format_03d_nonempty z) as N.
  destruct (format_03d z) as [| c r]; [congruence |].
  exists c, r. split; [reflexivity |].
  apply field_char_no_space. now inversion H.
Qed.

Lemma format_03d_last (z : Z) : exists r c, format_03d z = r ++ [c] /\ no_space c.
Proof.
  pose proof (format_03d_chars z) as H. pose proof (format_03d_nonempty z) as N.
  destruct (exists_last N) as (r & c & E). rewrite E in *.
  exists r, c. split; [reflexivity |].
  apply Forall_app in H. destruct H as [_ H].
  apply field_char_no_space. now inversion H.
Qed.

Lemma line_body_edges (p s e v : Z) : clean_edges (line_body p s e v).
Proof.
  split; unfold line_body.
  - destruct (format_03d_head p) as (c & r & -> & Hc). cbn [app]. eauto.
  - destruct (format_03d_last v) as (r & c & -> & Hc).
    exists (format_03d p ++ SP :: format_03d s ++ SP :: format_03d e ++ SP :: r), c.
    split; [| exact Hc].
    repeat (rewrite <- app_assoc; cbn [app]). reflexivity.
Qed.

Lemma encoded_decoded (n n' : Note) (b : str) :
  encoded n b -> requantize n = Ok n' -> decoded b n'.
Proof.
  intros (st & en & Hs & He & ->) R. unfold decoded.
  rewrite line_body_fields. split; [cbn; lia |].
  unfold requantize in R. rewrite Hs, He in R.
  unfold parse_note. cbn [nth length].
  rewrite !py_int_format_03d.
  change (4 <=? Z.of_nat 4) with true. cbn iota.
  destruct (seconds_of_ms st); [| discriminate].
  destruct (seconds_of_ms en); [| discriminate]. exact R.
Qed.

Lemma notes_loop_ok (ns : list Note) (bs : list str) :
  Forall2 encoded ns bs ->
  forall combined, notes_loop combined ns = (combined ++ concat (map with_NL bs), None).
Proof.
  induction 1 as [| n b ns bs Hn _ IH]; intros combined; cbn [notes_loop map concat].
  - now rewrite app_nil_r.
  - rewrite (note_line_encoded n b Hn), IH, app_assoc. reflexivity.
Qed.

Lemma instruments_loop_ok (l : list Instrument) :
  forall bs, Forall2 encoded (flat_map notes l) bs ->
  forall combined,
    instruments_loop combined l = (combined ++ concat (map with_NL bs), None).
Proof.
  induction l as [| i l IH]; intros bs H combined; cbn [instruments_loop flat_map] in *.
  - inversion H; subst. cbn. now rewrite app_nil_r.
  - apply Forall2_app_inv_l in H. destruct H as (b1 & b2 & H1 & H2 & ->).
    rewrite (notes_loop_ok _ _ H1), (IH _ H2), map_app, concat_app, app_assoc.
    reflexivity.
Qed.

Lemma decode_loop_ok (bs : list str) (ns : list Note) :
  Forall2 decoded bs ns ->
  forall acc t, decode_loop bs acc t = (Ok (acc ++ ns), t).
Proof.
  induction 1 as [| b n bs ns [Hlen Hn] _ IH]; intros acc t; cbn [decode_loop].
  - unfold ret. now rewrite app_nil_r.
  - destruct (Z.ltb_spec (Z.of_nat (length (split_ws b))) 3) as [Hlt | _]; [lia |].
    unfold bind, lift. rewrite Hn, IH, <- app_assoc. reflexivity.
Qed.

Lemma files_loop_ok (env : Env) (paths : list str) (midis : list PrettyMIDI) :
  corpus_ok env paths midis ->
  forall bs, Forall2 encoded (corpus_notes midis) bs ->
  forall combined t,
    files_loop env combined paths t =
    (Ok (combined ++ concat (map with_NL bs)), t ++ reads_of paths).
Proof.
  induction 1 as [| p m paths midis [Hf Hr] _ IH]; intros bs Hbs combined t.
  - inversion Hbs; subst. cbn. unfold ret. now rewrite !app_nil_r.
  - unfold corpus_notes in Hbs. cbn [flat_map] in Hbs.
    apply Forall2_app_inv_l in Hbs. destruct Hbs as (b1 & b2 & H1 & H2 & ->).
    cbn [files_loop]. unfold bind at 1. unfold call at 1. rewrite Hf. cbn [negb].
    unfold bind at 1, process_file, bind at 1, try_except, bind at 1, call.
    rewrite Hr. unfold ret at 1.
    rewrite (instruments_loop_ok _ _ H1). cbn [snd fst]. unfold ret at 1.
    rewrite (IH _ H2), map_app, concat_app, !app_assoc.
    cbn [reads_of flat_map app]. rewrite <- !app_assoc. reflexivity.
Qed.

Lemma requantize_line (n n' : Note) :
  requantize n = Ok n' ->
  exists b, encoded n b /\ decoded b n' /\ clean_edges b /\ no_NL b.
Proof.
  intros R. pose proof R as R0. unfold requantize in R.
  destruct (ms_of_seconds (start n)) as [st |] eqn:Hs; [| discriminate].
  destruct (ms_of_seconds (end_ n)) as [en |] eqn:He; [| discriminate].
  assert (E : encoded n (line_body (pitch n) st en (velocity n))).
  { exists st, en. auto. }
  eexists. split; [exact E |]. split; [exact (encoded_decoded _ _ _ E R0) |].
  split; [apply line_body_edges | apply line_body_no_NL].
Qed.

Lemma requantize_lines (ns ns' : list Note) :
  Forall2 (fun n n' => requantize n = Ok n') ns ns' ->
  exists bs, Forall2 encoded ns bs /\ Forall2 decoded bs ns' /\
             Forall clean_edges bs /\ Forall no_NL bs.
Proof.
  induction 1 as [| n n' ns ns' Hn _ (bs & H1 & H2 & H3 & H4)].
  - exists []. repeat split; constructor.
  - destruct (requantize_line n n' Hn) as (b & B1 & B2 & B3 & B4).
    exists (b :: bs). repeat split; constructor; assumption.
Qed.

(** Decoding a text of clean lines gives one melodic instrument with the
    notes of the lines. *)
Lemma convert_lines (bs : list str) (ns : list Note) :
  Forall2 decoded bs ns -> Forall clean_edges bs -> Forall no_NL bs ->
  forall t, exists t',
    convert_text_to_midi (concat (map with_NL bs)) t =
    (Ok (mkMidi [mkInstrument 0 false ns]), t').
Proof.
  intros Hd He Hn t. unfold convert_text_to_midi.
  destruct bs as [| b bs].
  - inversion Hd; subst. eexists. cbn. reflexivity.
  - rewrite lines_of_text by (auto; discriminate).
    unfold bind. rewrite (decode_loop_ok _ _ Hd). cbn [app]. unfold ret. eauto.
Qed.

(** ** Floats *)

Lemma digits2_size (m : positive) : digits2_pos m = Pos.size m.
Proof. induction m; cbn; congruence. Qed.

Lemma digits2_bound (m : positive) : Zpos m < 2 ^ 53 -> Zpos (digits2_pos m) <= 53.
Proof.
  intros H. rewrite digits2_size.
  assert (E : Zpos (Pos.size m) = Z.log2 (Zpos m) + 1) by (destruct m; cbn; lia).
  apply Z.log2_lt_pow2 in H; lia.
Qed.

Lemma digits2_iter (m k : positive) :
  digits2_pos (Pos.iter xO m k) = (digits2_pos m + k)%positive.
Proof.
  induction k using Pos.peano_ind.
  - cbn. lia.
  - rewrite Pos.iter_succ. cbn. rewrite IHk. lia.
Qed.

Lemma shr_fexp_canonical (mz : positive) (ez : Z) :
  Zpos (digits2_pos mz) = 53 -> -1074 <= ez ->
  shr_fexp Float.prec Float.emax (Zpos mz) ez loc_Exact =
  ({| shr_m := Zpos mz; shr_r := false; shr_s := false |}, ez).
Proof.
  intros D E. unfold shr_fexp. cbn [Zdigits2 shr_record_of_loc].
  assert (N : IntDef.Z.sub (fexp Float.prec Float.emax
                              (IntDef.Z.add (Zpos (digits2_pos mz)) ez)) ez = 0).
  { change (fexp Float.prec Float.emax (Zpos (digits2_pos mz) + ez) - ez = 0).
    unfold fexp, emin, Float.prec, Float.emax. lia. }
  rewrite N. reflexivity.
Qed.

Lemma binary_round_aux_canonical (sx : bool) (mz : positive) (ez : Z) :
  Zpos (digits2_pos mz) = 53 -> -1074 <= ez <= 971 ->
  binary_round_aux Float.prec Float.emax sx (Zpos mz) ez loc_Exact = S754_finite sx mz ez.
Proof.
  intros D E. unfold binary_round_aux.
  rewrite shr_fexp_canonical by (auto; lia).
  cbn [shr_m loc_of_shr_record round_nearest_even].
  rewrite shr_fexp_canonical by (auto; lia). cbn [shr_m].
  destruct (Z.leb_spec ez (Float.emax - Float.prec)) as [_ | C]; [reflexivity |].
  unfold Float.emax, Float.prec in C. lia.
Qed.

Lemma binary_round_small (sx : bool) (m : positive) :
  Zpos m < 2 ^ 53 ->
  exists mz ez, binary_round Float.prec Float.emax sx m 0 = S754_finite sx mz ez.
Proof.
  intros H. pose proof (digits2_bound m H) as D.
  unfold binary_round, shl_align.
  assert (F : IntDef.Z.sub (fexp Float.prec Float.emax
                              (IntDef.Z.add (Zpos (digits2_pos m)) 0)) 0
              = Zpos (digits2_pos m) - 53).
  { change (fexp Float.prec Float.emax (Zpos (digits2_pos m) + 0) - 0
            = Zpos (digits2_pos m) - 53).
    unfold fexp, emin, Float.prec, Float.emax. lia. }
  rewrite F.
  destruct (Zpos (digits2_pos m) - 53) as [| q | q] eqn:E; try lia.
  - exists m, 0. apply binary_round_aux_canonical; lia.
  - eexists _, _. apply binary_round_aux_canonical.
    + rewrite digits2_iter. lia.
    + change (fexp Float.prec Float.emax (Zpos (digits2_pos m) + 0))
        with (Z.max (Zpos (digits2_pos m) + 0 - 53) (3 - 1024 - 53)). lia.
Qed.

(** An integer below 2^53 in absolute value converts to a float, so the
    division of line 58 is defined on it. *)
Lemma seconds_of_ms_defined (t : Z) :
  Z.abs t < 2 ^ 53 -> seconds_of_ms t = Ok (Float.div (Float.of_Z t) f1000).
Proof.
  intros H. unfold seconds_of_ms, Float.of_int, Float.of_Z, binary_normalize.
  destruct t as [| m | m].
  - reflexivity.
  - destruct (binary_round_small false m) as (mz & ez & ->); [lia | reflexivity].
  - destruct (binary_round_small true m) as (mz & ez & ->); [lia | reflexivity].
Qed.

Lemma within_one_from_spec (n : nat) :
  forall t, within_one_from n t = true ->
  forall k, t <= k < t + Z.of_nat n ->
  ms_there_and_back k = Ok k \/ ms_there_and_back k = Ok (k - 1).
Proof.
  induction n as [| n IH]; intros t H k Hk; [lia |].
  cbn [within_one_from] in H.
  destruct (ms_there_and_back t) as [r |] eqn:E; [| discriminate].
  apply andb_true_iff in H. destruct H as [H1 H2].
  destruct (Z.eq_dec k t) as [-> | Hne].
  - rewrite E. apply orb_true_iff in H1.
    destruct H1 as [H1 | H1]; apply Z.eqb_eq in H1; subst; auto.
  - apply (IH (t + 1) H2). lia.
Qed.

(** X15.  Below 10 seconds, a millisecond value comes back as itself or as the
    value one below. *)
Lemma ms_there_and_back_within_one (t : Z) :
  0 <= t < 10000 ->
  ms_there_and_back t = Ok t \/ ms_there_and_back t = Ok (t - 1).
Proof.
  intros H.
  apply (within_one_from_spec (Z.to_nat 10000) 0); [vm_compute; reflexivity |].
  rewrite Z2Nat.id; lia.
Qed.

(** ** Round trip *)

Lemma representative_exact (s : Z) (x : Float.float) :
  In s representative_ms -> seconds_of_ms s = Ok x -> ms_of_seconds x = Ok s.
Proof.
  intros H E. cbn in H.
  repeat (destruct H as [<- | H];
          [vm_compute in E; injection E as <-; vm_compute; reflexivity |]).
  contradiction.
Qed.

Lemma requantize_representative (n : Note) :
  representative_times n -> requantize n = Ok n.
Proof.
  intros (s & e & Hs & He & Es & Ee). unfold requantize.
  rewrite (representative_exact s _ Hs Es), (representative_exact e _ He Ee), Es, Ee.
  now destruct n.
Qed.

Lemma requantize_fields (n n' : Note) :
  requantize n = Ok n' -> pitch n' = pitch n /\ velocity n' = velocity n.
Proof.
  unfold requantize. intros H.
  destruct (ms_of_seconds (start n)) as [st |]; [| discriminate].
  destruct (ms_of_seconds (end_ n)) as [en |]; [| discriminate].
  destruct (seconds_of_ms st); [| discriminate].
  destruct (seconds_of_ms en); [| discriminate].
  injection H as <-. auto.
Qed.

(** C1.  Decoding the text that encoding writes for a corpus gives a single
    melodic instrument whose notes are the notes of the corpus, in order, with
    pitch and velocity unchanged and each time taken to integer milliseconds
    and back to seconds; notes whose times are the seconds of 0, 1, 999, 1000
    or 123456 milliseconds come back unchanged, and these millisecond values
    survive the division by 1000.0 followed by the multiplication by 1000
    and the truncation. *)
Theorem decode_encode_round_trip
    (env : Env) (paths : list str) (midis : list PrettyMIDI) (ns' : list Note) (t : trace) :
  corpus_ok env paths midis ->
  Forall2 (fun n n' => requantize n = Ok n') (corpus_notes midis) ns' ->
  (exists text t1 t2,
      generate_midi_text_from_files env paths t = (Ok text, t1) /\
      convert_text_to_midi text t1 = (Ok (mkMidi [mkInstrument 0 false ns']), t2)) /\
  Forall2 (fun n n' => pitch n' = pitch n /\ velocity n' = velocity n)
          (corpus_notes midis) ns' /\
  (Forall representative_times (corpus_notes midis) -> ns' = corpus_notes midis) /\
  (forall ms, In ms representative_ms -> ms_there_and_back ms = Ok ms).
Proof.
  intros Hc Hq. repeat split.
  - destruct (requantize_lines _ _ Hq) as (bs & H1 & H2 & H3 & H4).
    unfold generate_midi_text_from_files.
    rewrite (files_loop_ok env paths midis Hc bs H1). cbn [app].
    destruct (convert_lines bs ns' H2 H3 H4 (t ++ reads_of paths)) as (t2 & E).
    eauto.
  - eapply Forall2_impl; [| exact Hq]. apply requantize_fields.
  - clear Hc. induction Hq as [| n n' ns ns' Hn _ IH]; intros Hrep; [reflexivity |].
    inversion Hrep as [| ? ? Rn Rns]; subst.
    rewrite (requantize_representative n Rn) in Hn. injection Hn as <-.
    f_equal. auto.
  - intros ms H. cbn in H.
    repeat (destruct H as [<- | H]; [vm_compute; reflexivity |]). contradiction.
Qed.

Lemma decode_encode_round_trip_witness :
  exists text t1 t2,
    generate_midi_text_from_files Sample.env0 [lit "/srv/app/mids/jazz_1.mid"] [] =
      (Ok text, t1) /\
    convert_text_to_midi text t1 =
      (Ok (mkMidi [mkInstrument 0 false [Sample.note1; Sample.note2]]), t2).
Proof.
  apply (decode_encode_round_trip Sample.env0 [lit "/srv/app/mids/jazz_1.mid"]
           [Sample.midi1] [Sample.note1; Sample.note2] []).
  - repeat constructor.
  - repeat constructor; vm_compute; reflexivity.
Defined.

Example ms_1001_loses_one : ms_there_and_back 1001 = Ok 1000.
Proof. vm_compute. reflexivity. Qed.

(** ** Encoding *)

Lemma ms_times_encoded (ns : list Note) (times : list (Z * Z)) :
  Forall2 ms_times ns times ->
  exists bs, Forall2 encoded ns bs /\
             concat (map with_NL bs) = concat (map note_text (combine ns times)).
Proof.
  induction 1 as [| n [s e] ns times [Hs He] _ (bs & H1 & H2)].
  - exists []. split; [constructor | reflexivity].
  - exists (line_body (pitch n) s e (velocity n) :: bs). split.
    + constructor; [| exact H1]. exists s, e. auto.
    + cbn [combine map concat note_text]. now rewrite H2.
Qed.

Lemma format_03d_length (z : Z) :
  length (format_03d z) = Nat.max 3 (length (str_of_int z)).
Proof.
  unfold format_03d, str_of_int, zeros.
  rewrite !length_app, repeat_length. lia.
Qed.

Lemma format_03d_nonneg (z : Z) :
  0 <= z -> Forall (fun c => is_digit c = true) (format_03d z).
Proof.
  intros Hz. destruct (format_03d_split z) as (body & -> & Hd & _).
  destruct (Z.ltb_spec z 0); [lia | exact Hd].
Qed.

(** C9.  The text written for a corpus is the concatenation, in the order of
    the notes, of one line per note and nothing else; a line is the four
    fields pitch, start, end, velocity in this order, separated by one blank
    and closed by a line break; a field is the sign, zeros and the decimal
    digits of its value, at least three characters wide, as wide as the
    value needs, and reads back as the value. *)
Theorem encode_one_line_per_note
    (env : Env) (paths : list str) (midis : list PrettyMIDI)
    (times : list (Z * Z)) (t : trace) :
  corpus_ok env paths midis ->
  Forall2 ms_times (corpus_notes midis) times ->
  fst (generate_midi_text_from_files env paths t) =
    Ok (concat (map note_text (combine (corpus_notes midis) times))) /\
  (forall p s e v,
      split_ws (line_body p s e v) =
        [format_03d p; format_03d s; format_03d e; format_03d v] /\
      no_NL (line_body p s e v)) /\
  (forall z,
      format_03d z =
        (if z <? 0 then ["-"%char] else []) ++
        zeros (3 - Z.of_nat (length (str_of_int z))) ++ digits (Z.abs z) /\
      length (format_03d z) = Nat.max 3 (length (str_of_int z)) /\
      py_int (format_03d z) = Ok z /\
      (0 <= z -> Forall (fun c => is_digit c = true) (format_03d z))).
Proof.
  intros Hc Ht. split; [| split].
  - destruct (ms_times_encoded _ _ Ht) as (bs & H1 & H2).
    unfold generate_midi_text_from_files.
    rewrite (files_loop_ok env paths midis Hc bs H1). cbn [fst app]. now rewrite H2.
  - intros p s e v. split; [apply line_body_fields | apply line_body_no_NL].
  - intros z. repeat split.
    + unfold format_03d, str_of_int. rewrite length_app.
      do 2 f_equal. f_equal. lia.
    + apply format_03d_length.
    + apply py_int_format_03d.
    + apply format_03d_nonneg.
Qed.

Lemma encode_one_line_per_note_witness :
  fst (generate_midi_text_from_files Sample.env0 [lit "/srv/app/mids/jazz_1.mid"] []) =
  Ok (lit "060 000 500 090" ++ [NL] ++ lit "064 999 123456 100" ++ [NL]).
Proof.
  refine (proj1 (encode_one_line_per_note Sample.env0 [lit "/srv/app/mids/jazz_1.mid"]
                   [Sample.midi1] [(0, 500); (999, 123456)] [] _ _)).
  - repeat constructor.
  - repeat constructor; vm_compute; reflexivity.
Defined.

Example format_03d_examples :
  map format_03d [0; 5; 60; 127; 1000; 123456; -5] =
  map lit ["000"; "005"; "060"; "127"; "1000"; "123456"; "-05"]%string.
Proof. vm_compute. reflexivity. Qed.

(** ** What a computation adds to the trace *)

Lemma total_emits {A} S (c : M A) : total S c -> emits S c.
Proof.
  intros H t. destruct (H t) as (a & d & E & F). eauto.
Qed.

Lemma emits_ret {A} S (a : A) : emits S (ret a).
Proof.
  intros t. exists (Ok a), []. rewrite app_nil_r. split; [reflexivity | constructor].
Qed.

Lemma total_ret {A} S (a : A) : total S (ret a).
Proof.
  intros t. exists a, []. rewrite app_nil_r. split; [reflexivity | constructor].
Qed.

Lemma emits_raise {A} S (e : exn) : emits S (@raise A e).
Proof.
  intros t. exists (Raise e), []. rewrite app_nil_r. split; [reflexivity | constructor].
Qed.

Lemma emits_lift {A} S (r : result A) : emits S (lift r).
Proof.
  intros t. exists r, []. rewrite app_nil_r. split; [reflexivity | constructor].
Qed.

Lemma emits_call {A} (S : event -> Prop) (ev : event) (r : result A) :
  S ev -> emits S (call ev r).
Proof.
  intros H t. exists r, [ev]. split; [reflexivity | repeat constructor; exact H].
Qed.

Lemma total_emit (S : event -> Prop) (ev : event) : S ev -> total S (emit ev).
Proof.
  intros H t. exists tt, [ev]. split; [reflexivity | repeat constructor; exact H].
Qed.

Lemma emits_bind {A B} S (c : M A) (k : A -> M B) :
  emits S c -> (forall a, emits S (k a)) -> emits S (bind c k).
Proof.
  intros Hc Hk t. unfold bind.
  destruct (Hc t) as ([a | e] & d & -> & F).
  - destruct (Hk a (t ++ d)) as (r & d' & -> & F').
    exists r, (d ++ d'). rewrite app_assoc. split; [reflexivity |].
    apply Forall_app; auto.
  - eauto.
Qed.

Lemma total_bind {A B} S (c : M A) (k : A -> M B) :
  total S c -> (forall a, total S (k a)) -> total S (bind c k).
Proof.
  intros Hc Hk t. unfold bind.
  destruct (Hc t) as (a & d & -> & F).
  destruct (Hk a (t ++ d)) as (b & d' & -> & F').
  exists b, (d ++ d'). rewrite app_assoc. split; [reflexivity |].
  apply Forall_app; auto.
Qed.

Lemma emits_try {A} S (c : M A) (h : exn -> M A) :
  emits S c -> (forall e, emits S (h e)) -> emits S (try_except c h).
Proof.
  intros Hc Hh t. unfold try_except.
  destruct (Hc t) as ([a | e] & d & -> & F).
  - eauto.
  - destruct (Hh e (t ++ d)) as (r & d' & -> & F').
    exists r, (d ++ d'). rewrite app_assoc. split; [reflexivity |].
    apply Forall_app; auto.
Qed.

(** A handler that never raises makes the whole [try] statement total. *)
Lemma total_try {A} S (c : M A) (h : exn -> M A) :
  emits S c -> (forall e, total S (h e)) -> total S (try_except c h).
Proof.
  intros Hc Hh t. unfold try_except.
  destruct (Hc t) as ([a | e] & d & -> & F).
  - eauto.
  - destruct (Hh e (t ++ d)) as (r & d' & -> & F').
    exists r, (d ++ d'). rewrite app_assoc. split; [reflexivity |].
    apply Forall_app; auto.
Qed.

Lemma within_same (ev : event) : within (stage_of ev) ev.
Proof. now left. Qed.

Lemma within_log (s : stage) (ev : event) : stage_of ev = Logging -> within s ev.
Proof. now right. Qed.

(** *** The stages *)

Lemma get_bpm_from_wav_total (env : Env) (wav_file : str) :
  total (within EstimateTempo) (get_bpm_from_wav env wav_file).
Proof.
  unfold get_bpm_from_wav. apply total_try.
  - repeat (apply emits_bind; [| intros ?]); apply emits_call; now left.
  - intros e. apply total_bind; [apply total_emit; now right | intros _; apply total_ret].
Qed.

Lemma get_midi_modifications_total (env : Env) (bpm : number) (text : str) :
  total (within Generate) (get_midi_modifications_from_gpt3 env bpm text).
Proof.
  unfold get_midi_modifications_from_gpt3. apply total_try.
  - apply emits_bind; [apply emits_call; now left | intros [| first rest]].
    + apply emits_raise.
    + apply emits_ret.
  - intros e. apply total_bind; [apply total_emit; now right | intros _; apply total_ret].
Qed.

Lemma process_file_total (env : Env) (combined : str) (p : str) :
  total (within EncodeReference) (process_file env combined p).
Proof.
  unfold process_file. apply total_bind.
  - apply total_try.
    + apply emits_bind; [apply emits_call; now left | intros m; apply emits_ret].
    + intros e. apply total_ret.
  - intros [c [e |]]; cbn [snd fst].
    + apply total_bind; [apply total_emit; now right | intros _; apply total_ret].
    + apply total_ret.
Qed.

Lemma files_loop_total (env : Env) (paths : list str) :
  forall combined, total (within EncodeReference) (files_loop env combined paths).
Proof.
  induction paths as [| p paths IH]; intros combined; cbn [files_loop].
  - apply total_ret.
  - apply total_bind.
    + intros t. exists (isfile env p), [IsFile p].
      split; [reflexivity | repeat constructor].
    + intros b. destruct b; cbn [negb]; [| apply IH].
      apply total_bind; [apply process_file_total | intros c; apply IH].
Qed.

Lemma decode_loop_emits (note_strings : list str) :
  forall acc, emits (within Logging) (decode_loop note_strings acc).
Proof.
  induction note_strings as [| l ls IH]; intros acc; cbn [decode_loop].
  - apply emits_ret.
  - destruct (Z.of_nat (length (split_ws l)) <? 3).
    + apply emits_bind; [apply total_emits, total_emit; now left | intros _; apply IH].
    + apply emits_bind; [apply emits_lift | intros n; apply IH].
Qed.

Lemma convert_text_to_midi_emits (text_data : str) :
  emits (within Logging) (convert_text_to_midi text_data).
Proof.
  unfold convert_text_to_midi.
  apply emits_bind; [apply decode_loop_emits | intros ns; apply emits_ret].
Qed.

Lemma get_filtered_midi_files_emits (env : Env) (style_keywords : style_arg) :
  emits (within SelectCorpus) (get_filtered_midi_files env style_keywords).
Proof.
  unfold get_filtered_midi_files.
  apply emits_bind; [apply emits_call; now left | intros l; apply emits_lift].
Qed.

(** ** Corpus selection *)

Lemma select_files_filter (folder : str) (style : style_arg) (kws : list str) :
  iterate style = Ok kws ->
  forall files,
    select_files folder style files = Ok (map (path_join folder) (filter (keeps kws) files)).
Proof.
  intros Hk files. induction files as [| f files IH]; [reflexivity |].
  cbn [select_files filter]. unfold keeps at 1. rewrite Hk, IH.
  destruct (endswith (lower f) (lit ".mid")); cbn [andb]; [| reflexivity].
  destruct (existsb _ kws); reflexivity.
Qed.

Lemma keeps_spec (kws : list str) (f : str) :
  keeps kws f = true <->
  endswith (lower f) (lit ".mid") = true /\
  exists keyword, In keyword kws /\ startswith (lower f) (lower keyword) = true.
Proof.
  unfold keeps. rewrite andb_true_iff, existsb_exists. reflexivity.
Qed.

(** C6.  With the listing jazz_1.mid, rock_2.mid, Jazz_solo.mid, blues.txt
    and the keyword jazz, the selection is jazz_1.mid and Jazz_solo.mid, as
    paths in the corpus folder; for any listing and keywords the selection is
    the listing, in its order, restricted to the names that end in .mid and
    start with a keyword, letter case apart. *)
Theorem corpus_filtering
    (env : Env) (files : list str) (kws : list str) (t : trace) :
  listdir env (corpus_folder env) = Ok files ->
  fst (get_filtered_midi_files env (StyleSeq kws) t) =
    Ok (map (path_join (corpus_folder env)) (filter (keeps kws) files)) /\
  (forall f, In f (filter (keeps kws) files) <->
             In f files /\ endswith (lower f) (lit ".mid") = true /\
             exists keyword, In keyword kws /\
                             startswith (lower f) (lower keyword) = true) /\
  (files = Sample.listing -> kws = [lit "jazz"] ->
   fst (get_filtered_midi_files env (StyleSeq kws) t) =
     Ok [path_join (corpus_folder env) (lit "jazz_1.mid");
         path_join (corpus_folder env) (lit "Jazz_solo.mid")]).
Proof.
  intros Hl.
  assert (E : fst (get_filtered_midi_files env (StyleSeq kws) t) =
              Ok (map (path_join (corpus_folder env)) (filter (keeps kws) files))).
  { unfold get_filtered_midi_files, bind, call, lift. fold (corpus_folder env).
    rewrite Hl. cbn [fst]. now apply select_files_filter. }
  split; [exact E |]. split.
  - intros f. rewrite filter_In, keeps_spec. reflexivity.
  - intros -> ->. rewrite E. reflexivity.
Qed.

Lemma corpus_filtering_witness :
  fst (get_filtered_midi_files Sample.env0 (StyleSeq [lit "jazz"]) []) =
  Ok [lit "/srv/app/mids/jazz_1.mid"; lit "/srv/app/mids/Jazz_solo.mid"].
Proof.
  exact (proj2 (proj2 (corpus_filtering Sample.env0 Sample.listing [lit "jazz"] []
                         eq_refl)) eq_refl eq_refl).
Defined.

Lemma startswith_character (f : str) (c : ascii) :
  startswith (lower f) (lower [c]) = true <->
  exists r, lower f = lower_char c :: r.
Proof.
  cbn. destruct (lower f) as [| a r]; cbn.
  - split; [discriminate | intros (r & E); discriminate].
  - rewrite andb_true_r. unfold ascii_eqb. rewrite Ascii.eqb_eq. split.
    + intros ->. eauto.
    + intros (r' & E). congruence.
Qed.

Lemma keeps_characters (s : str) (f : str) :
  keeps (characters s) f = true <->
  endswith (lower f) (lit ".mid") = true /\
  exists c r, In c (lower s) /\ lower f = c :: r.
Proof.
  rewrite keeps_spec. apply and_iff_compat_l. unfold characters, lower. split.
  - intros (k & Hk & Hs). apply in_map_iff in Hk. destruct Hk as (c & <- & Hc).
    apply startswith_character in Hs. destruct Hs as (r & E).
    exists (lower_char c), r. split; [now apply in_map | exact E].
  - intros (c & r & Hc & E). apply in_map_iff in Hc. destruct Hc as (c0 & <- & Hc0).
    exists [c0]. split; [exact (in_map (fun c => [c]) s c0 Hc0) |].
    apply startswith_character. eauto.
Qed.

Lemma bind_ok {A B} (c : M A) (k : A -> M B) (t t1 : trace) (a : A) :
  c t = (Ok a, t1) -> bind c k t = k a t1.
Proof.
  intros H. unfold bind. now rewrite H.
Qed.

Lemma bind_raise {A B} (c : M A) (k : A -> M B) (t t1 : trace) (e : exn) :
  c t = (Raise e, t1) -> bind c k t = (Raise e, t1).
Proof.
  intros H. unfold bind. now rewrite H.
Qed.

(** With the audio ready, the view goes on to the tempo and to the listing
    of the corpus folder. *)
Lemma upload_reaches_selection (env : Env) (request : Request) (f : UploadedFile)
    (t : trace) :
  audio_ready env request f ->
  exists bpm d,
    get_bpm_from_wav env TEMP_WAV_FILENAME
      (t ++ [AudioFromFile f; AudioExport TEMP_WAV_FILENAME]) =
      (Ok bpm, (t ++ [AudioFromFile f; AudioExport TEMP_WAV_FILENAME]) ++ d) /\
    upload env request t =
    try_except
      (midi_files <-
         get_filtered_midi_files env
           (style_of_post (lookup (lit "styleList") (POST request))) ;;
       encode_and_generate env f bpm midi_files)
      server_error
      (t ++ [AudioFromFile f; AudioExport TEMP_WAV_FILENAME] ++ d).
Proof.
  intros (Hp & Hf & audio & Ha & Hx).
  destruct (get_bpm_from_wav_total env TEMP_WAV_FILENAME
              (t ++ [AudioFromFile f; AudioExport TEMP_WAV_FILENAME]))
    as (bpm & d & E & F).
  exists bpm, d. split; [exact E |].
  unfold upload. unfold is_post in Hp. rewrite Hp. cbn [negb].
  unfold try_except, upload_body.
  erewrite bind_ok by (unfold lift; rewrite Hf; reflexivity).
  erewrite bind_ok by (unfold call; rewrite Ha; reflexivity).
  erewrite bind_ok by (unfold call; rewrite Hx; reflexivity).
  rewrite <- app_assoc. cbn [app].
  erewrite bind_ok by exact E.
  rewrite <- app_assoc. reflexivity.
Qed.

(** C10.  The view hands the text of the styleList field to the selection as
    it is, and the selection iterates over it: the files that go on to the
    encoder are the names of the listing that end in .mid and whose first
    character is, letter case apart, a character of that text.  With the text
    jazz, names starting with j, a or z are selected. *)
Theorem style_text_is_matched_by_character
    (env : Env) (request : Request) (f : UploadedFile) (s : str)
    (files : list str) (t : trace) :
  audio_ready env request f ->
  lookup (lit "styleList") (POST request) = Some s ->
  listdir env (corpus_folder env) = Ok files ->
  (exists bpm t1,
      upload env request t =
      try_except
        (encode_and_generate env f bpm
           (map (path_join (corpus_folder env)) (filter (keeps (characters s)) files)))
        server_error t1) /\
  (forall name, In name (filter (keeps (characters s)) files) <->
                In name files /\ endswith (lower name) (lit ".mid") = true /\
                exists c r, In c (lower s) /\ lower name = c :: r) /\
  (s = lit "jazz" ->
   files = map lit ["jazz_1.mid"; "rock_2.mid"; "alto.mid"; "Zebra.MID"; "jazz.txt"]%string ->
   filter (keeps (characters s)) files =
     map lit ["jazz_1.mid"; "alto.mid"; "Zebra.MID"]%string).
Proof.
  intros Hr Hs Hl. split; [| split].
  - destruct (upload_reaches_selection env request f t Hr) as (bpm & d & _ & E).
    exists bpm. eexists. rewrite E, Hs. unfold try_except.
    erewrite bind_ok; [reflexivity |].
    unfold get_filtered_midi_files. fold (corpus_folder env).
    erewrite bind_ok by (unfold call; rewrite Hl; reflexivity).
    unfold lift, style_of_post.
    rewrite (select_files_filter _ (StyleStr s) (characters s) eq_refl). reflexivity.
  - intros name. rewrite filter_In, keeps_characters. reflexivity.
  - intros -> ->. reflexivity.
Qed.

Lemma style_text_is_matched_by_character_witness :
  exists bpm t1,
    upload Sample.env0 Sample.post_request [] =
    try_except
      (encode_and_generate Sample.env0 Sample.wav bpm
         [lit "/srv/app/mids/jazz_1.mid"; lit "/srv/app/mids/Jazz_solo.mid"])
      server_error t1.
Proof.
  refine (proj1 (style_text_is_matched_by_character Sample.env0 Sample.post_request
                   Sample.wav (lit "jazz") Sample.listing [] _ eq_refl eq_refl)).
  repeat split. exists (Handle 0). split; reflexivity.
Defined.

(** ** Requests without the file field *)




(** ** Decoding *)

(** A line with fewer than three fields is logged and skipped. *)
Lemma decode_loop_skip (l : str) (rest : list str) (acc : list Note) (t : trace) :
  (length (split_ws l) < 3)%nat ->
  decode_loop (l :: rest) acc t =
  decode_loop rest acc
    (t ++ [LogWarning (lit "Invalid note format: " ++ l ++ lit ". Skipping.")]).
Proof.
  intros H. cbn [decode_loop].
  destruct (Z.ltb_spec (Z.of_nat (length (split_ws l))) 3) as [_ | Hge]; [| lia].
  reflexivity.
Qed.

(** A line with at least three fields gives a note, or stops the loop. *)
Lemma decode_loop_note (l : str) (rest : list str) (acc : list Note) (t : trace) :
  (3 <= length (split_ws l))%nat ->
  decode_loop (l :: rest) acc t =
  match parse_note (split_ws l) with
  | Ok note => decode_loop rest (acc ++ [note]) t
  | Raise e => (Raise e, t)
  end.
Proof.
  intros H. cbn [decode_loop].
  destruct (Z.ltb_spec (Z.of_nat (length (split_ws l))) 3) as [Hlt | _]; [lia |].
  unfold bind, lift. destruct (parse_note (split_ws l)); reflexivity.
Qed.

(** When no line has three fields the result is the empty instrument. *)
Lemma decode_loop_all_short (ls : list str) :
  Forall (fun l => (length (split_ws l) < 3)%nat) ls ->
  forall acc t, exists d, decode_loop ls acc t = (Ok acc, t ++ d).
Proof.
  induction 1 as [| l ls Hl _ IH]; intros acc t.
  - exists []. cbn. unfold ret. now rewrite app_nil_r.
  - rewrite decode_loop_skip by exact Hl.
    destruct (IH acc (t ++ [LogWarning (lit "Invalid note format: " ++ l ++ lit ". Skipping.")]))
      as (d & ->).
    eexists. rewrite <- app_assoc. reflexivity.
Qed.

Lemma convert_empty_text (t : trace) :
  convert_text_to_midi [] t =
  (Ok (mkMidi [mkInstrument 0 false []]),
   t ++ [LogWarning (lit "Invalid note format: . Skipping.")]).
Proof. reflexivity. Qed.

(** C2, at the input where the code departs from it: a line of three fields
    that are not integers makes [int] raise, and nothing in the decoder
    catches it. *)
Theorem decode_raises_on_a_non_integer_field :
  convert_text_to_midi (lit "a b c") [] =
  (Raise (ValueError (lit "invalid literal for int() with base 10: 'a'")), []).
Proof. vm_compute. reflexivity. Qed.

Example three_fields_and_four_fields :
  fst (convert_text_to_midi (lit "60 0 500" ++ [NL] ++ lit "bad line" ++ [NL] ++
                             lit "61 500 1000 80") []) =
  Ok (mkMidi [mkInstrument 0 false
                [mkNote 100 60 (Sample.sec 0) (Sample.sec 500);
                 mkNote 80 61 (Sample.sec 500) (Sample.sec 1000)]]).
Proof. vm_compute. reflexivity. Qed.

(** ** The stages after the selection *)

Lemma emits_weaken {A} (S S' : event -> Prop) (c : M A) :
  (forall ev, S ev -> S' ev) -> emits S c -> emits S' c.
Proof.
  intros HS Hc t. destruct (Hc t) as (r & d & E & F).
  exists r, d. split; [exact E |]. eapply Forall_impl; eauto.
Qed.

Lemma within_before (s : stage) (ev : event) :
  s <> Respond -> within s ev -> before_response ev.
Proof.
  unfold before_response. intros Hs [H | H]; rewrite H; [exact Hs | discriminate].
Qed.

Lemma save_midi_to_disk_emits (env : Env) (midi : PrettyMIDI) (directory filename : str) :
  emits (within Persist) (save_midi_to_disk env midi directory filename).
Proof.
  unfold save_midi_to_disk.
  apply emits_bind; [apply emits_call; now left | intros _; apply emits_ret].
Qed.

Lemma respond_emits (env : Env) (saved_filepath : str) :
  emits (within Respond) (respond env saved_filepath).
Proof.
  unfold respond. apply emits_bind; [apply emits_call; now left | intros [|]].
  - apply emits_bind; [apply emits_call; now left | intros h; apply emits_ret].
  - apply emits_ret.
Qed.

Lemma decode_and_persist_emits (env : Env) (f : UploadedFile) (text : str) :
  emits any_event (decode_and_persist env f text).
Proof.
  unfold decode_and_persist.
  apply emits_bind; [| intros midi; apply emits_bind; [| intros saved]].
  - eapply emits_weaken; [| apply convert_text_to_midi_emits]. now intros.
  - eapply emits_weaken; [| apply save_midi_to_disk_emits]. now intros.
  - eapply emits_weaken; [| apply respond_emits]. now intros.
Qed.

Lemma encode_and_generate_emits (env : Env) (f : UploadedFile) (bpm : number)
    (midi_files : list str) :
  emits any_event (encode_and_generate env f bpm midi_files).
Proof.
  unfold encode_and_generate, generate_midi_text_from_files.
  apply emits_bind; [| intros sample; apply emits_bind; [| intros text]].
  - eapply emits_weaken; [| apply total_emits, files_loop_total]. now intros.
  - eapply emits_weaken; [| apply total_emits, get_midi_modifications_total]. now intros.
  - apply decode_and_persist_emits.
Qed.

Lemma trace_grows {A} S (c : M A) (ev : event) (t : trace) :
  emits S c -> In ev t -> In ev (snd (c t)).
Proof.
  intros Hc Hin. destruct (Hc t) as (r & d & -> & _). cbn. apply in_or_app. now left.
Qed.

Lemma try_server_error_trace (c : M Response) (t : trace) :
  snd (try_except c server_error t) = snd (c t).
Proof.
  unfold try_except. destruct (c t) as [[r | e] t']; reflexivity.
Qed.

Lemma get_filtered_midi_files_trace (env : Env) (style_keywords : style_arg) (t : trace) :
  exists r,
    get_filtered_midi_files env style_keywords t = (r, t ++ [ListDir (corpus_folder env)]).
Proof.
  unfold get_filtered_midi_files, bind, call, lift. fold (corpus_folder env).
  destruct (listdir env (corpus_folder env)); eauto.
Qed.

(** ** Tempo estimation *)

(** C5.  When the tempo estimation raises, [get_bpm_from_wav] logs the
    failure and returns 0 instead of raising; a request whose audio was
    decoded then goes on, with the tempo 0, to the selection of the corpus:
    the corpus folder is listed. *)
Theorem tempo_failure_gives_zero (env : Env) (wav_file : str) (e : exn) (t : trace) :
  tempo_primitive_raises env wav_file e ->
  (exists d,
      get_bpm_from_wav env wav_file t =
        (Ok (PyInt 0),
         t ++ d ++ [LogError (lit "Failed to extract BPM from WAV: " ++ exn_str e)]) /\
      Forall (fun ev => stage_of ev = EstimateTempo) d) /\
  (forall request f,
      wav_file = TEMP_WAV_FILENAME -> audio_ready env request f ->
      (exists t1,
          upload env request t =
          try_except
            (midi_files <-
               get_filtered_midi_files env
                 (style_of_post (lookup (lit "styleList") (POST request))) ;;
             encode_and_generate env f (PyInt 0) midi_files)
            server_error t1) /\
      In (ListDir (corpus_folder env)) (snd (upload env request t))).
Proof.
  intros H.
  assert (Z0 : forall t0, exists d,
             get_bpm_from_wav env wav_file t0 =
               (Ok (PyInt 0),
                t0 ++ d ++ [LogError (lit "Failed to extract BPM from WAV: " ++ exn_str e)]) /\
             Forall (fun ev => stage_of ev = EstimateTempo) d).
  { intros t0. unfold get_bpm_from_wav, try_except, bind, call, emit, ret.
    destruct H as [H | (y & Hy & [H | (o & Ho & H)])].
    - rewrite H. exists [LibrosaLoad wav_file]. rewrite <- !app_assoc.
      split; [reflexivity | repeat constructor].
    - rewrite Hy, H. exists [LibrosaLoad wav_file; OnsetStrength].
      rewrite <- !app_assoc. split; [reflexivity | repeat constructor].
    - rewrite Hy, Ho, H. exists [LibrosaLoad wav_file; OnsetStrength; BeatTrack].
      rewrite <- !app_assoc. split; [reflexivity | repeat constructor]. }
  split; [apply Z0 |].
  intros request f -> Hr.
  destruct (upload_reaches_selection env request f t Hr) as (bpm & d & Eb & Eu).
  destruct (Z0 (t ++ [AudioFromFile f; AudioExport TEMP_WAV_FILENAME])) as (d0 & E0 & _).
  rewrite E0 in Eb. injection Eb as <- _.
  split; [eexists; exact Eu |].
  rewrite Eu, try_server_error_trace.
  set (t1 := t ++ _ ++ d).
  destruct (get_filtered_midi_files_trace env
              (style_of_post (lookup (lit "styleList") (POST request))) t1)
    as ([paths | e'] & E).
  - rewrite (bind_ok _ _ _ _ _ E).
    eapply trace_grows; [apply encode_and_generate_emits |].
    apply in_or_app. right. now left.
  - rewrite (bind_raise _ _ _ _ _ E). apply in_or_app. right. now left.
Qed.

Lemma tempo_failure_gives_zero_witness :
  In (ListDir (lit "/srv/app/mids"))
     (snd (upload Sample.env_tempo_down Sample.post_request [])).
Proof.
  refine (proj2 (proj2 (tempo_failure_gives_zero Sample.env_tempo_down TEMP_WAV_FILENAME
                          (ExternalError (lit "no backend")) [] _)
                       Sample.post_request Sample.wav eq_refl _)).
  - left. reflexivity.
  - repeat split. exists (Handle 0). split; reflexivity.
Defined.

(** ** Generation *)

(** C4.  When the completion call raises, [get_midi_modifications_from_gpt3]
    logs the failure and returns the empty text; decoding the empty text
    gives an instrument without notes; the view goes on to write that
    sequence and to answer, and when writing and opening the file work the
    answer is the file. *)
Theorem generation_failure_is_absorbed
    (env : Env) (bpm : number) (text : str) (e : exn) :
  completion_create env (gpt3_prompt env bpm text) = Raise e ->
  (forall t,
      get_midi_modifications_from_gpt3 env bpm text t =
        (Ok [],
         t ++ [CompletionCreate (gpt3_prompt env bpm text);
               LogError (lit "Failed to get GPT-3 modifications: " ++ exn_str e)])) /\
  (forall t, fst (convert_text_to_midi [] t) = Ok empty_part) /\
  (forall f midi_files t,
      fst (generate_midi_text_from_files env midi_files t) = Ok text ->
      (exists t',
          encode_and_generate env f bpm midi_files t =
          (saved_filepath <-
             save_midi_to_disk env empty_part (getcwd env)
               (splitext_root (name f) ++ MIDI_EXTENSION) ;;
           respond env saved_filepath) t') /\
      (forall h,
          midi_write env empty_part (output_path env f) = Ok tt ->
          path_exists env (output_path env f) = true ->
          open_rb env (output_path env f) = Ok h ->
          exists headers,
            fst (encode_and_generate env f bpm midi_files t) =
            Ok (FileResponse h (lit "audio/x-midi") headers))).
Proof.
  intros Hc.
  assert (G : forall t,
             get_midi_modifications_from_gpt3 env bpm text t =
             (Ok [],
              t ++ [CompletionCreate (gpt3_prompt env bpm text);
                    LogError (lit "Failed to get GPT-3 modifications: " ++ exn_str e)])).
  { intros t. unfold get_midi_modifications_from_gpt3, try_except, bind, call, emit, ret.
    rewrite Hc. rewrite <- app_assoc. reflexivity. }
  split; [exact G |]. split; [reflexivity |].
  intros f midi_files t Ht.
  assert (E : exists t',
             encode_and_generate env f bpm midi_files t =
             (saved_filepath <-
                save_midi_to_disk env empty_part (getcwd env)
                  (splitext_root (name f) ++ MIDI_EXTENSION) ;;
              respond env saved_filepath) t').
  { unfold encode_and_generate.
    destruct (generate_midi_text_from_files env midi_files t) as [r t1] eqn:E1.
    cbn [fst] in Ht. subst r.
    rewrite (bind_ok _ _ _ _ _ E1), (bind_ok _ _ _ _ _ (G t1)).
    unfold decode_and_persist. rewrite (bind_ok _ _ _ _ _ (convert_empty_text _)).
    eauto. }
  split; [exact E |].
  intros h Hw Hx Ho. destruct E as (t' & ->).
  unfold save_midi_to_disk, respond, bind, call, ret. fold (output_path env f).
  rewrite Hw, Hx, Ho. cbn [fst]. eauto.
Qed.

Lemma generation_failure_is_absorbed_witness :
  exists headers,
    fst (encode_and_generate Sample.env_service_down Sample.wav (PyInt 0) [] []) =
    Ok (FileResponse (Handle 3) (lit "audio/x-midi") headers).
Proof.
  refine (proj2 (proj2 (proj2 (generation_failure_is_absorbed Sample.env_service_down
                                 (PyInt 0) [] (ExternalError (lit "service unavailable"))
                                 eq_refl)) Sample.wav [] [] eq_refl)
                (Handle 3) eq_refl eq_refl eq_refl).
Defined.

(** ** The answer when the written file is not there *)

Lemma not_checked_yet (t : trace) (p : str) :
  no_response_yet t -> ~ In (PathExists p) t.
Proof.
  intros H Hin. unfold no_response_yet in H. rewrite Forall_forall in H.
  apply (H _ Hin). reflexivity.
Qed.

Lemma emits_keeps {A} S (c : M A) (t t' : trace) (r : result A) :
  emits S c -> (forall ev, S ev -> before_response ev) ->
  c t = (r, t') -> no_response_yet t -> no_response_yet t'.
Proof.
  intros Hc HS E Ht. destruct (Hc t) as (r0 & d & E0 & F).
  rewrite E in E0. injection E0 as _ ->.
  apply Forall_app. split; [exact Ht |]. eapply Forall_impl; eauto.
Qed.

Lemma bind_answers_not_found {A} S (p : str) (c : M A) (k : A -> M Response) :
  emits S c -> (forall ev, S ev -> before_response ev) ->
  (forall a, answers_not_found p (k a)) ->
  answers_not_found p (bind c k).
Proof.
  intros Hc HS Hk t r t' E Ht Hin. unfold bind in E.
  destruct (c t) as [[a | e] t1] eqn:E1.
  - apply (Hk a t1 r t' E); [| exact Hin]. exact (emits_keeps S c _ _ _ Hc HS E1 Ht).
  - injection E as <- <-.
    exfalso. apply (not_checked_yet t1 p); [| exact Hin].
    exact (emits_keeps S c _ _ _ Hc HS E1 Ht).
Qed.

Lemma respond_answers_not_found (env : Env) (p saved : str) :
  path_exists env p = false -> answers_not_found p (respond env saved).
Proof.
  intros Hp t r t' E Ht Hin. unfold respond, bind, call, ret in E.
  destruct (path_exists env saved) eqn:Hs.
  - exfalso.
    assert (Hin' : In (PathExists p) ((t ++ [PathExists saved]) ++ [OpenRb saved])).
    { destruct (open_rb env saved); injection E as _ <-; exact Hin. }
    rewrite <- app_assoc in Hin'. apply in_app_or in Hin'.
    destruct Hin' as [Hin' | [Hin' | [Hin' | []]]].
    + exact (not_checked_yet t p Ht Hin').
    + injection Hin' as ->. congruence.
    + discriminate.
  - injection E as <- _. reflexivity.
Qed.

Lemma upload_body_answers_not_found (env : Env) (request : Request) (p : str) :
  path_exists env p = false -> answers_not_found p (upload_body env request).
Proof.
  intros Hp. unfold upload_body.
  assert (W : forall s, s <> Respond -> forall ev, within s ev -> before_response ev).
  { intros s Hs ev. now apply within_before. }
  eapply bind_answers_not_found; [apply (emits_lift (within DecodeAudio)) | | intros f].
  { apply W. discriminate. }
  eapply bind_answers_not_found;
    [apply (emits_call (within DecodeAudio)); now left | | intros audio].
  { apply W. discriminate. }
  eapply bind_answers_not_found;
    [apply (emits_call (within DecodeAudio)); now left | | intros _].
  { apply W. discriminate. }
  eapply bind_answers_not_found;
    [apply total_emits, get_bpm_from_wav_total | | intros bpm].
  { apply W. discriminate. }
  eapply bind_answers_not_found;
    [apply get_filtered_midi_files_emits | | intros midi_files].
  { apply W. discriminate. }
  unfold encode_and_generate, generate_midi_text_from_files.
  eapply bind_answers_not_found; [apply total_emits, files_loop_total | | intros sample].
  { apply W. discriminate. }
  eapply bind_answers_not_found;
    [apply total_emits, get_midi_modifications_total | | intros text].
  { apply W. discriminate. }
  unfold decode_and_persist.
  eapply bind_answers_not_found; [apply convert_text_to_midi_emits | | intros midi].
  { apply W. discriminate. }
  eapply bind_answers_not_found; [apply save_midi_to_disk_emits | | intros saved].
  { apply W. discriminate. }
  now apply respond_answers_not_found.
Qed.

(** C7, as the code has it.  When the view has checked the written file and
    the file is not there, the answer is status 404 with the plain text
    "File not found", which is not the status 500 of the [except] clause. *)
Theorem missing_output_is_answered_with_404
    (env : Env) (request : Request) (p : str) (r : result Response) (t' : trace) :
  upload env request [] = (r, t') ->
  In (PathExists p) t' ->
  path_exists env p = false ->
  r = Ok (HttpResponse (lit "File not found") 404) /\
  (forall resp, r = Ok resp -> status_of resp = 404 /\ status_of resp <> 500).
Proof.
  intros E Hin Hp.
  assert (R : r = Ok not_found).
  { unfold upload in E. destruct (negb (str_eqb (method request) (lit "POST"))).
    - injection E as _ <-. destruct Hin.
    - unfold try_except in E.
      destruct (upload_body env request []) as [[resp | e] t1] eqn:E1.
      + injection E as <- <-.
        exact (upload_body_answers_not_found env request p Hp [] _ _ E1
                 (Forall_nil _) Hin).
      + unfold server_error, ret in E. injection E as _ <-.
        pose proof (upload_body_answers_not_found env request p Hp [] _ _ E1
                      (Forall_nil _) Hin) as C.
        discriminate. }
  split; [exact R |]. intros resp ->. injection R as ->. cbn. lia.
Qed.

Lemma missing_output_is_answered_with_404_witness :
  fst (upload Sample.env_output_lost Sample.post_request []) =
  Ok (HttpResponse (lit "File not found") 404).
Proof.
  refine (proj1 (missing_output_is_answered_with_404 Sample.env_output_lost
                   Sample.post_request (lit "/srv/app/take.midi")
                   (fst (upload Sample.env_output_lost Sample.post_request []))
                   (snd (upload Sample.env_output_lost Sample.post_request []))
                   _ _ eq_refl)).
  - apply surjective_pairing.
  - vm_compute. do 12 right. left. reflexivity.
Defined.

(** C7 as stated fails: the body of the 404 answer is plain text, not a JSON
    object with an error entry. *)
Lemma missing_output_body_is_not_json :
  In (PathExists (lit "/srv/app/take.midi"))
     (snd (upload Sample.env_output_lost Sample.post_request [])) /\
  path_exists Sample.env_output_lost (lit "/srv/app/take.midi") = false /\
  ~ (exists msg,
        fst (upload Sample.env_output_lost Sample.post_request []) =
        Ok (JsonResponse [(lit "error", msg)] 404)).
Proof.
  split; [vm_compute; do 12 right; left; reflexivity |].
  split; [reflexivity |].
  intros (msg & E). vm_compute in E. discriminate.
Qed.

(** * Further properties *)

(** ** The view always answers *)

Lemma returns_bind {A B} (P : B -> Prop) (c : M A) (k : A -> M B) :
  (forall a, returns P (k a)) -> returns P (bind c k).
Proof.
  intros Hk t b t' E. unfold bind in E.
  destruct (c t) as [[a | e] t1]; [exact (Hk a t1 b t' E) | discriminate].
Qed.

Lemma respond_returns (env : Env) (saved : str) :
  returns file_or_not_found (respond env saved).
Proof.
  intros t r t' E. unfold respond, bind, call, ret in E.
  destruct (path_exists env saved).
  - destruct (open_rb env saved); [| discriminate].
    injection E as <- _. now left.
  - injection E as <- _. now right.
Qed.

Lemma upload_body_returns (env : Env) (request : Request) :
  returns file_or_not_found (upload_body env request).
Proof.
  unfold upload_body, encode_and_generate, decode_and_persist.
  do 9 (apply returns_bind; intros ?).
  apply respond_returns.
Qed.

Lemma upload_body_emits (env : Env) (request : Request) :
  emits any_event (upload_body env request).
Proof.
  unfold upload_body.
  apply emits_bind; [apply emits_lift | intros f].
  apply emits_bind; [apply emits_call; exact I | intros audio].
  apply emits_bind; [apply emits_call; exact I | intros _].
  apply emits_bind; [| intros bpm].
  { eapply emits_weaken; [| apply total_emits, get_bpm_from_wav_total]. now intros. }
  apply emits_bind; [| intros midi_files; apply encode_and_generate_emits].
  eapply emits_weaken; [| apply get_filtered_midi_files_emits]. now intros.
Qed.

(** X1.  The view never raises: it answers every request, with status 405 exactly
    when the method is not POST (and then nothing was done), and otherwise
    with status 200, 404 or 500. *)
Theorem upload_always_answers (env : Env) (request : Request) (t : trace) :
  exists resp d,
    upload env request t = (Ok resp, t ++ d) /\
    (status_of resp = 200 \/ status_of resp = 404 \/
     status_of resp = 405 \/ status_of resp = 500) /\
    (status_of resp = 405 <-> str_eqb (method request) (lit "POST") = false) /\
    (status_of resp = 405 ->
     d = [] /\ resp = JsonResponse [(lit "error", lit "Only POST method is allowed")] 405).
Proof.
  unfold upload. destruct (str_eqb (method request) (lit "POST")) eqn:Hm; cbn [negb].
  - unfold try_except.
    destruct (upload_body_emits env request t) as (r & d & E & _). rewrite E.
    destruct r as [resp | e].
    + exists resp, d. split; [reflexivity |].
      destruct (upload_body_returns env request t resp _ E) as [S | S]; rewrite S.
      * repeat split; try (intros; discriminate); auto.
      * repeat split; try (intros; discriminate); auto.
    + eexists _, d. split; [reflexivity |]. cbn.
      repeat split; try (intros; discriminate); auto.
  - eexists _, []. unfold ret. rewrite app_nil_r. split; [reflexivity |].
    cbn. repeat split; auto.
Qed.

(** ** The order of the stages *)

Lemma staged_nil (l : list stage) : staged l [].
Proof.
  induction l as [| s l IH]; [reflexivity |].
  exists [], []. repeat split; [constructor | exact IH].
Qed.

Lemma staged_skip (s : stage) (l : list stage) (d : trace) :
  staged l d -> staged (s :: l) d.
Proof.
  intros H. exists [], d. repeat split; [constructor | exact H].
Qed.

Lemma staged_more (s : stage) (l : list stage) (d1 d : trace) :
  Forall (within s) d1 -> staged (s :: l) d -> staged (s :: l) (d1 ++ d).
Proof.
  intros H1 (d2 & d3 & -> & H2 & H3).
  exists (d1 ++ d2), d3. rewrite app_assoc. repeat split; [| exact H3].
  apply Forall_app. auto.
Qed.

Lemma emits_staged_one {A} (s : stage) (l : list stage) (c : M A) :
  emits (within s) c -> emits_staged (s :: l) c.
Proof.
  intros H t. destruct (H t) as (r & d & E & F).
  exists r, d. split; [exact E |].
  exists d, []. rewrite app_nil_r. repeat split; [exact F | apply staged_nil].
Qed.

Lemma emits_staged_skip {A} (s : stage) (l : list stage) (c : M A) :
  emits_staged l c -> emits_staged (s :: l) c.
Proof.
  intros H t. destruct (H t) as (r & d & E & F).
  exists r, d. split; [exact E | now apply staged_skip].
Qed.

Lemma emits_staged_bind {A B} (s : stage) (l : list stage) (c : M A) (k : A -> M B) :
  emits (within s) c -> (forall a, emits_staged (s :: l) (k a)) ->
  emits_staged (s :: l) (bind c k).
Proof.
  intros Hc Hk t. unfold bind.
  destruct (Hc t) as ([a | e] & d & -> & F).
  - destruct (Hk a (t ++ d)) as (r & d' & -> & F').
    exists r, (d ++ d'). rewrite app_assoc. split; [reflexivity |].
    now apply staged_more.
  - exists (Raise e), d. split; [reflexivity |].
    rewrite <- (app_nil_r d). apply staged_more; [exact F | apply staged_nil].
Qed.

Lemma within_logging (s : stage) (ev : event) : within Logging ev -> within s ev.
Proof.
  intros [H | H]; now right.
Qed.

Lemma upload_body_staged (env : Env) (request : Request) :
  emits_staged pipeline_order (upload_body env request).
Proof.
  unfold pipeline_order, upload_body.
  apply emits_staged_bind; [apply emits_lift | intros f].
  apply emits_staged_bind; [apply emits_call; now left | intros audio].
  apply emits_staged_bind; [apply emits_call; now left | intros _].
  apply emits_staged_skip.
  apply emits_staged_bind; [apply total_emits, get_bpm_from_wav_total | intros bpm].
  apply emits_staged_skip.
  apply emits_staged_bind; [apply get_filtered_midi_files_emits | intros midi_files].
  apply emits_staged_skip.
  unfold encode_and_generate, generate_midi_text_from_files.
  apply emits_staged_bind; [apply total_emits, files_loop_total | intros sample].
  apply emits_staged_skip.
  apply emits_staged_bind;
    [apply total_emits, get_midi_modifications_total | intros text].
  apply emits_staged_skip.
  unfold decode_and_persist.
  apply emits_staged_bind; [| intros midi].
  { eapply emits_weaken; [apply within_logging | apply convert_text_to_midi_emits]. }
  apply emits_staged_bind; [apply save_midi_to_disk_emits | intros saved].
  apply emits_staged_skip.
  apply emits_staged_one, respond_emits.
Qed.

(** X2.  What the view does to the outside comes in the order of the pipeline:
    audio decoding, tempo estimation, corpus listing, corpus reading, the
    completion call, the writing of the result, the check and opening of the
    written file; no stage is entered again after a later one began. *)
Theorem upload_follows_the_pipeline_order (env : Env) (request : Request) (t : trace) :
  exists r d, upload env request t = (r, t ++ d) /\ staged pipeline_order d.
Proof.
  unfold upload. destruct (negb (str_eqb (method request) (lit "POST"))).
  - eexists _, []. unfold ret. rewrite app_nil_r. split; [reflexivity | apply staged_nil].
  - unfold try_except.
    destruct (upload_body_staged env request t) as ([resp | e] & d & -> & S).
    + eauto.
    + unfold server_error, ret. eauto.
Qed.

(** ** How often the outside is called *)















(** ** More on decoding *)

Lemma has_three_true (l : str) :
  has_three l = true <-> (3 <= length (split_ws l))%nat.
Proof.
  unfold has_three. rewrite Z.leb_le. lia.
Qed.

Lemma has_three_false (l : str) :
  has_three l = false <-> (length (split_ws l) < 3)%nat.
Proof.
  unfold has_three. rewrite Z.leb_gt. lia.
Qed.

(** The notes do not depend on what was traced before. *)
Lemma decode_loop_fst (ls : list str) :
  forall acc t t', fst (decode_loop ls acc t) = fst (decode_loop ls acc t').
Proof.
  induction ls as [| l ls IH]; intros acc t t'; [reflexivity |].
  destruct (has_three l) eqn:H.
  - apply has_three_true in H. rewrite !decode_loop_note by exact H.
    destruct (parse_note (split_ws l)); [apply IH | reflexivity].
  - apply has_three_false in H. rewrite !decode_loop_skip by exact H. apply IH.
Qed.

Lemma decode_loop_filter (ls : list str) :
  forall acc t,
    fst (decode_loop ls acc t) = fst (decode_loop (filter has_three ls) acc t).
Proof.
  induction ls as [| l ls IH]; intros acc t; [reflexivity |].
  cbn [filter]. destruct (has_three l) eqn:H.
  - pose proof H as H'. apply has_three_true in H'.
    rewrite !decode_loop_note by exact H'.
    destruct (parse_note (split_ws l)); [apply IH | reflexivity].
  - apply has_three_false in H. rewrite decode_loop_skip by exact H.
    rewrite <- IH. apply decode_loop_fst.
Qed.

Lemma decode_loop_count (ls : list str) :
  forall acc t ns,
    fst (decode_loop ls acc t) = Ok ns ->
    length ns = (length acc + length (filter has_three ls))%nat.
Proof.
  induction ls as [| l ls IH]; intros acc t ns E.
  - cbn in E. injection E as <-. cbn. lia.
  - cbn [filter]. destruct (has_three l) eqn:H.
    + apply has_three_true in H. rewrite decode_loop_note in E by exact H.
      destruct (parse_note (split_ws l)) as [n |]; [| discriminate].
      rewrite (IH _ _ _ E), length_app. cbn. lia.
    + apply has_three_false in H. rewrite decode_loop_skip in E by exact H.
      exact (IH _ _ _ E).
Qed.

Lemma convert_fst (text_data : str) (t : trace) :
  fst (convert_text_to_midi text_data t) =
  match fst (decode_loop (lines_of text_data) [] t) with
  | Ok ns => Ok (mkMidi [mkInstrument 0 false ns])
  | Raise e => Raise e
  end.
Proof.
  unfold convert_text_to_midi, bind, ret, lines_of.
  destruct (decode_loop (split_on NL (strip text_data)) [] t) as [[ns | e] t'];
    reflexivity.
Qed.

(** X4.  Lines with fewer than three fields, blank lines among them, have no
    effect on the result of decoding: it is the result for the other lines
    alone, and when decoding succeeds there is one note per such line. *)
Theorem short_lines_do_not_matter (text_data : str) (t : trace) :
  fst (convert_text_to_midi text_data t) =
    match fst (decode_loop (filter has_three (lines_of text_data)) [] []) with
    | Ok ns => Ok (mkMidi [mkInstrument 0 false ns])
    | Raise e => Raise e
    end /\
  (forall midi,
      fst (convert_text_to_midi text_data t) = Ok midi ->
      exists ns, midi = mkMidi [mkInstrument 0 false ns] /\
                 length ns = length (filter has_three (lines_of text_data))).
Proof.
  rewrite convert_fst. split.
  - rewrite decode_loop_filter.
    now rewrite (decode_loop_fst _ [] t []).
  - intros midi E.
    destruct (fst (decode_loop (lines_of text_data) [] t)) as [ns |] eqn:D;
      [| discriminate].
    injection E as <-. exists ns. split; [reflexivity |].
    now rewrite (decode_loop_count _ _ _ _ D).
Qed.

Lemma decode_loop_raises (ls : list str) (e : exn) :
  forall acc t,
    fst (decode_loop ls acc t) = Raise e <->
    exists l1 l l2,
      ls = l1 ++ l :: l2 /\
      Forall (fun x => has_three x = true -> exists n, parse_note (split_ws x) = Ok n) l1 /\
      has_three l = true /\ parse_note (split_ws l) = Raise e.
Proof.
  induction ls as [| x ls IH]; intros acc t.
  - split; [discriminate |]. intros (l1 & l & l2 & E & _). now destruct l1.
  - destruct (has_three x) eqn:H.
    + pose proof H as H'. apply has_three_true in H'.
      rewrite decode_loop_note by exact H'.
      destruct (parse_note (split_ws x)) as [n |] eqn:P.
      * rewrite IH. split.
        -- intros (l1 & l & l2 & -> & F & Hl & Pl).
           exists (x :: l1), l, l2. repeat split; auto.
           constructor; [eauto | exact F].
        -- intros (l1 & l & l2 & E & F & Hl & Pl).
           destruct l1 as [| y l1]; cbn in E; injection E as -> ->.
           ++ congruence.
           ++ exists l1, l, l2. repeat split; auto. now inversion F.
      * cbn [fst]. split.
        -- intros E. injection E as ->. exists [], x, ls. repeat split; auto.
        -- intros (l1 & l & l2 & E & F & Hl & Pl).
           destruct l1 as [| y l1]; cbn in E; injection E as -> ->.
           ++ congruence.
           ++ inversion F as [| ? ? Hy _]; subst.
              destruct (Hy H) as (n & Pn). congruence.
    + pose proof H as H'. apply has_three_false in H'.
      rewrite decode_loop_skip by exact H'. rewrite IH. split.
      * intros (l1 & l & l2 & -> & F & Hl & Pl).
        exists (x :: l1), l, l2. repeat split; auto.
        constructor; [congruence | exact F].
      * intros (l1 & l & l2 & E & F & Hl & Pl).
        destruct l1 as [| y l1]; cbn in E; injection E as -> ->.
        -- congruence.
        -- exists l1, l, l2. repeat split; auto. now inversion F.
Qed.

(** X5.  Decoding raises exactly when some line with at least three fields has a
    field that [int] rejects or a time too large for a float, and then with
    the exception of the first such line. *)
Theorem decode_raises_at_the_first_bad_line (text_data : str) (e : exn) (t : trace) :
  fst (convert_text_to_midi text_data t) = Raise e <->
  exists l1 l l2,
    lines_of text_data = l1 ++ l :: l2 /\
    Forall (fun x => has_three x = true -> exists n, parse_note (split_ws x) = Ok n) l1 /\
    has_three l = true /\ parse_note (split_ws l) = Raise e.
Proof.
  rewrite convert_fst, <- (decode_loop_raises (lines_of text_data) e [] t).
  destruct (fst (decode_loop (lines_of text_data) [] t)); split; congruence.
Qed.

(** ** More on the selection *)

Lemma select_files_none (folder : str) (files : list str) :
  select_files folder StyleNone files =
  if existsb is_mid files then Raise not_iterable else Ok [].
Proof.
  induction files as [| f files IH]; [reflexivity |].
  cbn [select_files existsb iterate]. unfold is_mid at 1.
  destruct (endswith (lower f) (lit ".mid")); [reflexivity | exact IH].
Qed.

(** X9.  Without the styleList field the selection is handed [None]: it raises a
    type error as soon as the folder holds a name ending in .mid, and gives
    the empty selection when it holds none. *)
Theorem selection_without_style (env : Env) (t : trace) :
  fst (get_filtered_midi_files env (style_of_post None) t) =
  match listdir env (corpus_folder env) with
  | Raise e => Raise e
  | Ok files => if existsb is_mid files then Raise not_iterable else Ok []
  end.
Proof.
  unfold get_filtered_midi_files, bind, call, lift, style_of_post.
  fold (corpus_folder env).
  destruct (listdir env (corpus_folder env)) as [files | e]; cbn [fst];
    [apply select_files_none | reflexivity].
Qed.

(** ** More on the tempo and on the generation *)

(** [get_bpm_from_wav] never raises: it returns the tempo of the beat
    tracker when the three calls work, and 0 when one of them raises. *)
Theorem tempo_is_estimated_or_zero (env : Env) (wav_file : str) (t : trace) :
  exists n d,
    get_bpm_from_wav env wav_file t = (Ok n, t ++ d) /\
    ((exists y onset_env,
         librosa_load env wav_file = Ok y /\ onset_strength env y = Ok onset_env /\
         beat_track env onset_env = Ok n /\
         d = [LibrosaLoad wav_file; OnsetStrength; BeatTrack]) \/
     (n = PyInt 0 /\ exists e, tempo_primitive_raises env wav_file e)).
Proof.
  unfold get_bpm_from_wav, try_except, bind, call, emit, ret, tempo_primitive_raises.
  destruct (librosa_load env wav_file) as [y | e] eqn:Hy.
  - destruct (onset_strength env y) as [o | e] eqn:Ho.
    + destruct (beat_track env o) as [n | e] eqn:Hb.
      * exists n, [LibrosaLoad wav_file; OnsetStrength; BeatTrack].
        rewrite <- !app_assoc. split; [reflexivity |]. left. eauto 6.
      * eexists _, [_; _; _; _]. rewrite <- !app_assoc. split; [reflexivity |].
        right. split; [reflexivity |]. exists e. right. exists y. split; [reflexivity |].
        right. eauto.
    + eexists _, [_; _; _]. rewrite <- !app_assoc. split; [reflexivity |].
      right. split; [reflexivity |]. exists e. right. exists y. split; [reflexivity |].
      now left.
  - eexists _, [_; _]. rewrite <- !app_assoc. split; [reflexivity |].
    right. split; [reflexivity |]. exists e. now left.
Qed.

(** X11.  [get_midi_modifications_from_gpt3] never raises and calls the service
    once: it returns the text of the first choice without the blanks around
    it; when the call raises, or answers without any choice, it logs one
    error and returns the empty text. *)
Theorem generation_is_first_choice_or_empty
    (env : Env) (bpm : number) (text : str) (t : trace) :
  exists s d,
    get_midi_modifications_from_gpt3 env bpm text t =
      (Ok s, t ++ CompletionCreate (gpt3_prompt env bpm text) :: d) /\
    ((exists first rest,
         completion_create env (gpt3_prompt env bpm text) = Ok (first :: rest) /\
         s = strip first /\ d = []) \/
     (s = [] /\
      exists e,
        d = [LogError (lit "Failed to get GPT-3 modifications: " ++ exn_str e)] /\
        (completion_create env (gpt3_prompt env bpm text) = Raise e \/
         completion_create env (gpt3_prompt env bpm text) = Ok [] /\
         e = IndexError (lit "list index out of range")))).
Proof.
  unfold get_midi_modifications_from_gpt3, try_except, bind, call, emit, raise, ret.
  destruct (completion_create env (gpt3_prompt env bpm text)) as [[| first rest] | e].
  - eexists _, [_]. rewrite <- app_assoc. split; [reflexivity |].
    right. split; [reflexivity |]. eexists. split; [reflexivity |]. right. auto.
  - eexists _, []. split; [reflexivity |]. left. eauto.
  - eexists _, [_]. rewrite <- app_assoc. split; [reflexivity |].
    right. split; [reflexivity |]. eexists. split; [reflexivity |]. now left.
Qed.

(** ** More on encoding *)

Lemma notes_loop_frame (ns : list Note) :
  forall combined,
    notes_loop combined ns =
    (combined ++ fst (notes_loop [] ns), snd (notes_loop [] ns)).
Proof.
  induction ns as [| n ns IH]; intros combined; cbn [notes_loop].
  - cbn. now rewrite app_nil_r.
  - destruct (note_line n) as [l | e].
    + rewrite (IH (combined ++ l)), (IH ([] ++ l)). cbn [fst snd app].
      now rewrite app_assoc.
    + cbn. now rewrite app_nil_r.
Qed.

Lemma instruments_loop_frame (l : list Instrument) :
  forall combined,
    instruments_loop combined l =
    (combined ++ fst (instruments_loop [] l), snd (instruments_loop [] l)).
Proof.
  induction l as [| i l IH]; intros combined; cbn [instruments_loop].
  - cbn. now rewrite app_nil_r.
  - rewrite (notes_loop_frame (notes i) combined), (notes_loop_frame (notes i) []).
    cbn [app]. destruct (snd (notes_loop [] (notes i))) as [e |].
    + reflexivity.
    + rewrite (IH (combined ++ _)), (IH (fst (notes_loop [] (notes i)))).
      cbn [fst snd]. now rewrite app_assoc.
Qed.

(** What a file adds to the text, and what reading it adds to the trace. *)
Lemma process_file_frame (env : Env) (p : str) (combined : str) (t : trace) :
  exists s d,
    process_file env [] p [] = (Ok s, d) /\
    process_file env combined p t = (Ok (combined ++ s), t ++ d).
Proof.
  unfold process_file, bind, try_except, call, emit, ret.
  destruct (midi_read env p) as [midi | e].
  - rewrite (instruments_loop_frame (instruments midi) combined).
    cbn [fst snd app].
    destruct (instruments_loop [] (instruments midi)) as [s [e |]]; cbn [fst snd].
    + eexists _, _. split; [reflexivity |]. now rewrite <- app_assoc.
    + eexists _, _. split; [reflexivity | reflexivity].
  - cbn [fst snd]. eexists _, _. split; [reflexivity |].
    now rewrite app_nil_r, <- app_assoc.
Qed.

Lemma files_loop_frame (env : Env) (paths : list str) :
  forall combined t,
  exists s d,
    files_loop env [] paths [] = (Ok s, d) /\
    files_loop env combined paths t = (Ok (combined ++ s), t ++ d).
Proof.
  induction paths as [| p paths IH]; intros combined t; cbn [files_loop].
  - exists [], []. unfold ret. now rewrite !app_nil_r.
  - unfold bind at 1 3, call. destruct (isfile env p); cbn [negb].
    + destruct (process_file_frame env p combined (t ++ [IsFile p])) as (s1 & d1 & E0 & E1).
      destruct (process_file_frame env p [] ([] ++ [IsFile p])) as (s1' & d1' & E0' & E1').
      rewrite E0 in E0'. injection E0' as <- <-.
      rewrite (bind_ok _ _ _ _ _ E1), (bind_ok _ _ _ _ _ E1').
      destruct (IH (combined ++ s1) ((t ++ [IsFile p]) ++ d1)) as (s2 & d2 & F0 & F1).
      destruct (IH ([] ++ s1) (([] ++ [IsFile p]) ++ d1)) as (s2' & d2' & F0' & F1').
      rewrite F0 in F0'. injection F0' as <- <-.
      rewrite F1, F1'. eexists _, _. split; [reflexivity |].
      now rewrite <- !app_assoc.
    + destruct (IH combined (t ++ [IsFile p])) as (s2 & d2 & F0 & F1).
      destruct (IH [] ([] ++ [IsFile p])) as (s2' & d2' & F0' & F1').
      rewrite F0 in F0'. injection F0' as <- <-.
      rewrite F1, F1'. eexists _, _. split; [reflexivity |].
      now rewrite <- !app_assoc.
Qed.

Lemma files_loop_app (env : Env) (ps qs : list str) :
  forall combined t,
    files_loop env combined (ps ++ qs) t =
    (combined' <- files_loop env combined ps ;; files_loop env combined' qs) t.
Proof.
  induction ps as [| p ps IH]; intros combined t; [reflexivity |].
  cbn [app files_loop]. unfold bind at 1 3 4, call.
  destruct (isfile env p); cbn [negb].
  - destruct (process_file_frame env p combined (t ++ [IsFile p])) as (s1 & d1 & _ & E1).
    rewrite !(bind_ok _ _ _ _ _ E1). apply IH.
  - apply IH.
Qed.

Lemma encoding_splits (env : Env) (ps qs : list str) (t : trace) :
  exists s1 s2,
    fst (generate_midi_text_from_files env ps []) = Ok s1 /\
    fst (generate_midi_text_from_files env qs []) = Ok s2 /\
    fst (generate_midi_text_from_files env (ps ++ qs) t) = Ok (s1 ++ s2).
Proof.
  unfold generate_midi_text_from_files.
  destruct (files_loop_frame env ps [] t) as (s1 & d1 & E0 & E1).
  destruct (files_loop_frame env qs ([] ++ s1) (t ++ d1)) as (s2 & d2 & F0 & F1).
  exists s1, s2. rewrite E0, F0, files_loop_app, (bind_ok _ _ _ _ _ E1), F1.
  repeat split.
Qed.

(** X12.  Encoding never raises, and the text of a list of paths followed by
    another is the text of the first followed by the text of the second. *)
Theorem encoding_is_compositional (env : Env) (ps qs : list str) (t : trace) :
  exists s1 s2,
    fst (generate_midi_text_from_files env ps []) = Ok s1 /\
    fst (generate_midi_text_from_files env qs []) = Ok s2 /\
    fst (generate_midi_text_from_files env (ps ++ qs) t) = Ok (s1 ++ s2).
Proof.
  exact (encoding_splits env ps qs t).
Qed.

Lemma unusable_file_adds_nothing (env : Env) (p : str) :
  isfile env p = false \/ (exists e, midi_read env p = Raise e) ->
  fst (generate_midi_text_from_files env [p] []) = Ok [].
Proof.
  intros H. unfold generate_midi_text_from_files. cbn [files_loop].
  unfold bind at 1, call. destruct (isfile env p) eqn:Hf; cbn [negb]; [| reflexivity].
  destruct H as [H | (e & H)]; [discriminate |].
  unfold bind, process_file, try_except, bind, call, emit, ret. rewrite H. reflexivity.
Qed.

(** X13.  A path that is not a file, or whose file cannot be read, changes
    nothing in the encoded text: the text is that of the other paths. *)
Theorem unusable_files_are_skipped (env : Env) (ps qs : list str) (p : str) (t : trace) :
  isfile env p = false \/ (exists e, midi_read env p = Raise e) ->
  fst (generate_midi_text_from_files env (ps ++ p :: qs) t) =
  fst (generate_midi_text_from_files env (ps ++ qs) t).
Proof.
  intros H.
  destruct (encoding_splits env ps (p :: qs) t) as (s1 & s2 & A1 & A2 & ->).
  destruct (encoding_splits env ps qs t) as (s1' & s3 & B1 & B2 & ->).
  destruct (encoding_splits env [p] qs []) as (s4 & s5 & C1 & C2 & C3).
  cbn [app] in C3.
  rewrite (unusable_file_adds_nothing env p H) in C1. injection C1 as <-.
  cbn [app] in C3. congruence.
Qed.

Lemma unusable_files_are_skipped_witness :
  fst (generate_midi_text_from_files More.env_no_files
         ([] ++ lit "/srv/app/mids/gone.mid" :: []) []) =
  fst (generate_midi_text_from_files More.env_no_files ([] ++ []) []).
Proof.
  apply (unusable_files_are_skipped More.env_no_files [] [] (lit "/srv/app/mids/gone.mid") []).
  left. reflexivity.
Defined.

(** ** More on the round trip *)

Lemma requantize_moderate (n : Note) (q : Z * Z) :
  ms_times n q -> moderate q -> requantize n = Ok (read_back (n, q)).
Proof.
  intros [Hs He] [Ms Me]. unfold requantize.
  rewrite Hs, He, (seconds_of_ms_defined _ Ms), (seconds_of_ms_defined _ Me).
  reflexivity.
Qed.

Lemma requantize_all_moderate (ns : list Note) (times : list (Z * Z)) :
  Forall2 ms_times ns times -> Forall moderate times ->
  Forall2 (fun n n' => requantize n = Ok n') ns (map read_back (combine ns times)).
Proof.
  induction 1 as [| n q ns times Hn _ IH]; intros Hm; cbn [combine map].
  - constructor.
  - inversion Hm; subst. constructor; [now apply requantize_moderate | now apply IH].
Qed.

(** X14.  For a corpus that reads without error and whose times are below 2^53
    milliseconds, decoding the encoded text never raises: it gives one
    instrument whose notes are those of the corpus, in order, each with its
    pitch and velocity and with its integer milliseconds divided by 1000.0. *)
Theorem round_trip_is_defined_on_moderate_times
    (env : Env) (paths : list str) (midis : list PrettyMIDI)
    (times : list (Z * Z)) (t : trace) :
  corpus_ok env paths midis ->
  Forall2 ms_times (corpus_notes midis) times ->
  Forall moderate times ->
  exists text t1 t2,
    generate_midi_text_from_files env paths t = (Ok text, t1) /\
    convert_text_to_midi text t1 =
      (Ok (mkMidi [mkInstrument 0 false
                     (map read_back (combine (corpus_notes midis) times))]), t2).
Proof.
  intros Hc Ht Hm.
  pose proof (requantize_all_moderate _ _ Ht Hm) as Hq.
  destruct (requantize_lines _ _ Hq) as (bs & H1 & H2 & H3 & H4).
  unfold generate_midi_text_from_files.
  rewrite (files_loop_ok env paths midis Hc bs H1). cbn [app].
  destruct (convert_lines bs _ H2 H3 H4 (t ++ reads_of paths)) as (t2 & E).
  eauto.
Qed.

Lemma round_trip_is_defined_on_moderate_times_witness :
  exists text t1 t2,
    generate_midi_text_from_files Sample.env0 [lit "/srv/app/mids/jazz_1.mid"] [] =
      (Ok text, t1) /\
    convert_text_to_midi text t1 =
      (Ok (mkMidi [mkInstrument 0 false
                     (map read_back
                        (combine (corpus_notes [Sample.midi1]) [(0, 500); (999, 123456)]))]),
       t2).
Proof.
  apply (round_trip_is_defined_on_moderate_times Sample.env0
           [lit "/srv/app/mids/jazz_1.mid"] [Sample.midi1] [(0, 500); (999, 123456)] []).
  - repeat constructor.
  - repeat constructor; vm_compute; reflexivity.
  - repeat constructor; cbn; lia.
Defined.

(** X8.  A line of three integer fields whose times are below 2^53 in absolute
    value always gives a note: pitch and times as read, the times divided by
    1000.0, velocity 100. *)
Theorem three_moderate_fields_give_a_note (f1 f2 f3 : str) (p s e : Z) :
  py_int f1 = Ok p -> py_int f2 = Ok s -> py_int f3 = Ok e ->
  Z.abs s < 2 ^ 53 -> Z.abs e < 2 ^ 53 ->
  parse_note [f1; f2; f3] = Ok (note_of_fields p s e 100).
Proof.
  intros H1 H2 H3 Ms Me. unfold parse_note. cbn [nth length].
  rewrite H1, H2, H3. cbn [Z.of_nat Pos.of_succ_nat Pos.succ Z.leb Z.compare Pos.compare
                            Pos.compare_cont].
  rewrite (seconds_of_ms_defined _ Ms), (seconds_of_ms_defined _ Me). reflexivity.
Qed.

Lemma three_moderate_fields_give_a_note_witness :
  parse_note [lit "60"; lit "0"; lit "500"] = Ok (note_of_fields 60 0 500 100).
Proof.
  apply (three_moderate_fields_give_a_note (lit "60") (lit "0") (lit "500") 60 0 500);
    try reflexivity; cbn; lia.
Defined.

(** The bound at a value that loses a millisecond. *)
Lemma ms_there_and_back_within_one_witness :
  ms_there_and_back 1001 = Ok 1001 \/ ms_there_and_back 1001 = Ok (1001 - 1).
Proof.
  apply (ms_there_and_back_within_one 1001). lia.
Defined.

(** ** From the request to the answer *)








(** ** The name of the written file *)

Lemma rfind_from_absent (c : ascii) (s : str) :
  no_char c s -> forall i last, rfind_from i last c s = last.
Proof.
  induction 1 as [| a s Ha _ IH]; intros i last; cbn [rfind_from]; [reflexivity |].
  now rewrite Ha, IH.
Qed.

Lemma rfind_from_last (c : ascii) (a b : str) :
  no_char c b ->
  forall i last, rfind_from i last c (a ++ c :: b) = i + Z.of_nat (length a).
Proof.
  intros Hb. induction a as [| x a IH]; intros i last; cbn [app rfind_from length].
  - unfold ascii_eqb at 1. rewrite Ascii.eqb_refl, rfind_from_absent by exact Hb. lia.
  - rewrite IH. lia.
Qed.

Lemma skipn_length_app {A} (a l : list A) : skipn (length a) (a ++ l) = l.
Proof.
  induction a as [| x a IH]; [reflexivity | exact IH].
Qed.

Lemma firstn_length_app {A} (a l : list A) : firstn (length a) (a ++ l) = a.
Proof.
  induction a as [| x a IH]; [reflexivity | cbn; now rewrite IH].
Qed.

Lemma basename_after_slash (a b : str) :
  no_char "/"%char b -> basename (a ++ "/"%char :: b) = b.
Proof.
  intros Hb. unfold basename, rfind, slice_from.
  rewrite rfind_from_last by exact Hb.
  replace (Z.to_nat (0 + Z.of_nat (length a) + 1)) with (length (a ++ ["/"%char]))
    by (rewrite length_app; cbn; lia).
  change (a ++ "/"%char :: b) with (a ++ ["/"%char] ++ b).
  rewrite app_assoc. apply skipn_length_app.
Qed.

Lemma basename_plain (b : str) : no_char "/"%char b -> basename b = b.
Proof.
  intros Hb. unfold basename, rfind. now rewrite rfind_from_absent by exact Hb.
Qed.

Lemma endswith_char (s : str) (c : ascii) :
  endswith s [c] = true -> exists x, s = x ++ [c].
Proof.
  unfold endswith. cbn [rev app]. intros H.
  destruct (rev s) as [| a r] eqn:E; cbn in H; [discriminate |].
  rewrite andb_true_r in H. unfold ascii_eqb in H. apply Ascii.eqb_eq in H. subst a.
  exists (rev r). rewrite <- (rev_involutive s), E. reflexivity.
Qed.

Lemma startswith_slash (b : str) :
  no_char "/"%char b -> startswith b ["/"%char] = false.
Proof.
  intros Hb. destruct Hb as [| a b Ha _]; cbn; [reflexivity |].
  now rewrite Ha.
Qed.

Lemma basename_path_join (directory filename : str) :
  no_char "/"%char filename -> basename (path_join directory filename) = filename.
Proof.
  intros Hb. unfold path_join. rewrite startswith_slash by exact Hb.
  destruct directory as [| c directory]; [now apply basename_plain |].
  destruct (endswith (c :: directory) ["/"%char]) eqn:E.
  - apply endswith_char in E. destruct E as (x & ->).
    rewrite <- app_assoc. now apply basename_after_slash.
  - now apply basename_after_slash.
Qed.

Lemma splitext_root_simple (base ext : str) :
  no_char "/"%char base -> no_char "/"%char ext -> no_char "."%char ext ->
  existsb not_a_dot base = true ->
  splitext_root (base ++ "."%char :: ext) = base.
Proof.
  intros Hb He Hd Hn. unfold splitext_root, rfind.
  rewrite (rfind_from_absent "/"%char).
  2:{ apply Forall_app. split; [exact Hb |]. constructor; [reflexivity | exact He]. }
  rewrite rfind_from_last by exact Hd.
  destruct (Z.ltb_spec (-1) (0 + Z.of_nat (length base))) as [_ | C]; [| lia].
  unfold slice_from, slice_to.
  replace (Z.to_nat (0 + Z.of_nat (length base))) with (length base) by lia.
  rewrite firstn_length_app.
  change (Z.to_nat (-1 + 1)) with 0%nat. cbn [skipn].
  unfold not_a_dot in Hn. now rewrite Hn.
Qed.

Lemma splitext_root_no_dot (base : str) :
  no_char "/"%char base -> no_char "."%char base -> splitext_root base = base.
Proof.
  intros Hb Hd. unfold splitext_root, rfind.
  rewrite !rfind_from_absent by assumption. reflexivity.
Qed.

(** X22.  The written file, and the attachment, are named after the upload: for
    an upload named base.ext (no slash, no dot in the extension, a base that
    is not made of dots only), or named base without any dot, the name is
    base.midi, in the working directory. *)
Theorem output_is_named_after_the_upload
    (env : Env) (f : UploadedFile) (base ext : str) :
  no_char "/"%char base ->
  (name f = base /\ no_char "."%char base) \/
  (name f = base ++ "."%char :: ext /\ no_char "/"%char ext /\ no_char "."%char ext /\
   existsb not_a_dot base = true) ->
  output_path env f = path_join (getcwd env) (base ++ MIDI_EXTENSION) /\
  basename (output_path env f) = base ++ MIDI_EXTENSION.
Proof.
  intros Hb H.
  assert (R : splitext_root (name f) = base).
  { destruct H as [[-> Hd] | (-> & He & Hd & Hn)].
    - now apply splitext_root_no_dot.
    - now apply splitext_root_simple. }
  unfold output_path. rewrite R. split; [reflexivity |].
  apply basename_path_join. apply Forall_app. split; [exact Hb |].
  repeat constructor.
Qed.

Lemma output_is_named_after_the_upload_witness :
  output_path Sample.env0 Sample.wav = path_join (lit "/srv/app") (lit "take" ++ MIDI_EXTENSION) /\
  basename (output_path Sample.env0 Sample.wav) = lit "take" ++ MIDI_EXTENSION.
Proof.
  apply (output_is_named_after_the_upload Sample.env0 Sample.wav (lit "take") (lit "wav")).
  - repeat constructor.
  - right. repeat split; repeat constructor.
Defined.

(** ** Blanks around the text, and the warnings *)

Lemma lstrip_idempotent (s : str) : lstrip (lstrip s) = lstrip s.
Proof.
  induction s as [| a s IH]; [reflexivity |].
  cbn [lstrip]. destruct (is_space a) eqn:H; [exact IH |].
  cbn [lstrip]. now rewrite H.
Qed.

Lemma lstrip_snoc (l : str) (c : ascii) :
  no_space c -> lstrip (l ++ [c]) = lstrip l ++ [c].
Proof.
  intros Hc. induction l as [| a l IH]; cbn [app lstrip].
  - now rewrite Hc.
  - destruct (is_space a); [exact IH | reflexivity].
Qed.

Lemma rstrip_idempotent (s : str) : rstrip (rstrip s) = rstrip s.
Proof.
  unfold rstrip. now rewrite rev_involutive, lstrip_idempotent.
Qed.

Lemma lstrip_rstrip_lstrip (s : str) : lstrip (rstrip (lstrip s)) = rstrip (lstrip s).
Proof.
  assert (H : lstrip s = [] \/ exists c r, lstrip s = c :: r /\ no_space c).
  { induction s as [| a s IH]; [now left |].
    cbn [lstrip]. destruct (is_space a) eqn:Ha; [exact IH | right; eauto]. }
  destruct H as [-> | (c & r & -> & Hc)]; [reflexivity |].
  unfold rstrip. cbn [rev]. rewrite lstrip_snoc by exact Hc.
  rewrite rev_app_distr. cbn [rev app]. now apply lstrip_head.
Qed.

Lemma strip_idempotent (s : str) : strip (strip s) = strip s.
Proof.
  unfold strip. now rewrite lstrip_rstrip_lstrip, rstrip_idempotent.
Qed.

(** X7.  Blanks and line breaks around the text make no difference to the
    decoder: the text without them decodes alike, with the same warnings. *)
Theorem decoding_ignores_blanks_around_the_text (text_data : str) (t : trace) :
  convert_text_to_midi (strip text_data) t = convert_text_to_midi text_data t.
Proof.
  unfold convert_text_to_midi. now rewrite strip_idempotent.
Qed.

Lemma decode_loop_warnings (ls : list str) :
  forall acc t ns t',
    decode_loop ls acc t = (Ok ns, t') ->
    t' = t ++ map skip_warning (filter is_short ls).
Proof.
  induction ls as [| l ls IH]; intros acc t ns t' E.
  - cbn in E. injection E as _ <-. cbn. now rewrite app_nil_r.
  - cbn [filter]. unfold is_short at 1. destruct (has_three l) eqn:H; cbn [negb].
    + apply has_three_true in H. rewrite decode_loop_note in E by exact H.
      destruct (parse_note (split_ws l)); [exact (IH _ _ _ _ E) | discriminate].
    + apply has_three_false in H. rewrite decode_loop_skip in E by exact H.
      rewrite (IH _ _ _ _ E), <- app_assoc. reflexivity.
Qed.

(** X6.  When decoding succeeds it has logged one warning per line with fewer
    than three fields, in the order of the lines, each quoting its line, and
    nothing else. *)
Theorem one_warning_per_skipped_line
    (text_data : str) (t t' : trace) (midi : PrettyMIDI) :
  convert_text_to_midi text_data t = (Ok midi, t') ->
  t' = t ++ map skip_warning (filter is_short (lines_of text_data)).
Proof.
  unfold convert_text_to_midi, bind, ret. fold (lines_of text_data).
  destruct (decode_loop (lines_of text_data) [] t) as [[ns | e] t1] eqn:E;
    [| discriminate].
  intros H. injection H as _ <-. exact (decode_loop_warnings _ _ _ _ _ E).
Qed.

Lemma one_warning_per_skipped_line_witness :
  snd (convert_text_to_midi (lit "60 0 500" ++ [NL] ++ lit "bad line") []) =
  [] ++ map skip_warning
          (filter is_short (lines_of (lit "60 0 500" ++ [NL] ++ lit "bad line"))).
Proof.
  apply (one_warning_per_skipped_line (lit "60 0 500" ++ [NL] ++ lit "bad line") []
           (snd (convert_text_to_midi (lit "60 0 500" ++ [NL] ++ lit "bad line") []))
           (mkMidi [mkInstrument 0 false [note_of_fields 60 0 500 100]])).
  vm_compute. reflexivity.
Defined.

(** ** The paths of the selection *)

(** X10.  The selected paths name the kept entries of the listing: their last
    components are these entries, in order. *)
Theorem selected_paths_name_the_kept_entries
    (env : Env) (files : list str) (kws : list str) (t : trace) :
  listdir env (corpus_folder env) = Ok files ->
  Forall (no_char "/"%char) files ->
  exists paths,
    fst (get_filtered_midi_files env (StyleSeq kws) t) = Ok paths /\
    map basename paths = filter (keeps kws) files.
Proof.
  intros Hl Hs. eexists. split.
  - unfold get_filtered_midi_files, bind, call, lift. fold (corpus_folder env).
    rewrite Hl. cbn [fst]. now apply select_files_filter.
  - rewrite map_map. rewrite <- (map_id (filter (keeps kws) files)) at 2.
    apply map_ext_in. intros f Hf. apply basename_path_join.
    apply filter_In in Hf. rewrite Forall_forall in Hs. now apply Hs.
Qed.

Lemma selected_paths_name_the_kept_entries_witness :
  exists paths,
    fst (get_filtered_midi_files Sample.env0 (StyleSeq [lit "jazz"]) []) = Ok paths /\
    map basename paths = filter (keeps [lit "jazz"]) Sample.listing.
Proof.
  apply (selected_paths_name_the_kept_entries Sample.env0 Sample.listing [lit "jazz"] []).
  - reflexivity.
  - repeat constructor.
Defined.

(** ** A second round trip *)

Lemma stable_from_spec (n : nat) :
  forall t, stable_from n t = true ->
  forall k, t <= k < t + Z.of_nat n ->
  exists r, ms_there_and_back k = Ok r /\ ms_there_and_back r = Ok r.
Proof.
  induction n as [| n IH]; intros t H k Hk; [lia |].
  cbn [stable_from] in H.
  destruct (ms_there_and_back t) as [r |] eqn:E; [| discriminate].
  destruct (ms_there_and_back r) as [r' |] eqn:E'; [| discriminate].
  apply andb_true_iff in H. destruct H as [H1 H2].
  destruct (Z.eq_dec k t) as [-> | Hne].
  - exists r. apply Z.eqb_eq in H1. subst r'. auto.
  - apply (IH (t + 1) H2). lia.
Qed.

(** X16.  Below 10 seconds, what comes back from a trip through seconds is
    unchanged by further trips: decoding and encoding again loses nothing
    more. *)
Theorem second_round_trip_is_exact (t : Z) :
  0 <= t < 10000 ->
  exists r, ms_there_and_back t = Ok r /\ ms_there_and_back r = Ok r.
Proof.
  intros H.
  apply (stable_from_spec (Z.to_nat 10000) 0); [vm_compute; reflexivity |].
  rewrite Z2Nat.id; lia.
Qed.

Lemma second_round_trip_is_exact_witness :
  exists r, ms_there_and_back 1001 = Ok r /\ ms_there_and_back r = Ok r.
Proof.
  apply (second_round_trip_is_exact 1001). lia.
Defined.

(** ** Failures on the way *)

(** X21.  Without the styleList field, a request whose audio was decoded is
    answered with status 500 and the text of the type error as soon as the
    corpus folder lists a name ending in .mid; nothing happens after the
    listing. *)
Theorem upload_without_style_fails_on_a_corpus
    (env : Env) (request : Request) (f : UploadedFile) (files : list str) (t : trace) :
  audio_ready env request f ->
  lookup (lit "styleList") (POST request) = None ->
  listdir env (corpus_folder env) = Ok files ->
  existsb is_mid files = true ->
  exists d1,
    Forall (within EstimateTempo) d1 /\
    upload env request t =
      (Ok (JsonResponse [(lit "error", lit "'NoneType' object is not iterable")] 500),
       t ++ [AudioFromFile f; AudioExport TEMP_WAV_FILENAME] ++ d1 ++
            [ListDir (corpus_folder env)]).
Proof.
  intros Hr Hs Hl Hm.
  destruct (upload_reaches_selection env request f t Hr) as (bpm & d1 & Eb & ->).
  destruct (get_bpm_from_wav_total env TEMP_WAV_FILENAME
              (t ++ [AudioFromFile f; AudioExport TEMP_WAV_FILENAME]))
    as (bpm' & d1' & Eb' & F1).
  rewrite Eb in Eb'. injection Eb' as _ Ed. apply app_inv_head in Ed. subst d1'.
  exists d1. split; [exact F1 |].
  rewrite Hs. unfold try_except.
  erewrite bind_raise.
  2:{ unfold get_filtered_midi_files. fold (corpus_folder env).
      erewrite bind_ok by (unfold call; rewrite Hl; reflexivity).
      unfold lift, style_of_post. rewrite select_files_none, Hm. reflexivity. }
  unfold server_error, ret. cbn [exn_str not_iterable].
  repeat rewrite <- app_assoc. reflexivity.
Qed.

Lemma upload_without_style_fails_on_a_corpus_witness :
  exists d1,
    Forall (within EstimateTempo) d1 /\
    upload Sample.env0 Broken.post_without_style [] =
      (Ok (JsonResponse [(lit "error", lit "'NoneType' object is not iterable")] 500),
       [] ++ [AudioFromFile Sample.wav; AudioExport TEMP_WAV_FILENAME] ++ d1 ++
             [ListDir (corpus_folder Sample.env0)]).
Proof.
  apply (upload_without_style_fails_on_a_corpus Sample.env0 Broken.post_without_style
           Sample.wav Sample.listing []); try reflexivity.
  repeat split. exists (Handle 0). split; reflexivity.
Defined.

(** X20.  When the uploaded audio cannot be decoded, or the decoded audio cannot
    be exported, the view answers with status 500 and the text of the
    exception; no later stage runs. *)
Theorem upload_stops_when_the_audio_fails
    (env : Env) (request : Request) (f : UploadedFile) (e : exn) (t : trace) :
  is_post request ->
  lookup (lit "file") (FILES request) = Some f ->
  (audio_from_file env f = Raise e \/
   exists audio, audio_from_file env f = Ok audio /\
                 audio_export env audio TEMP_WAV_FILENAME = Raise e) ->
  exists d,
    upload env request t = (Ok (JsonResponse [(lit "error", exn_str e)] 500), t ++ d) /\
    Forall (fun ev => stage_of ev = DecodeAudio) d.
Proof.
  intros Hp Hf H. unfold upload. unfold is_post in Hp. rewrite Hp. cbn [negb].
  unfold try_except, upload_body.
  erewrite bind_ok by (unfold lift; rewrite Hf; reflexivity).
  destruct H as [H | (audio & Ha & H)].
  - erewrite bind_raise by (unfold call; rewrite H; reflexivity).
    exists [AudioFromFile f]. split; [reflexivity | repeat constructor].
  - erewrite bind_ok by (unfold call; rewrite Ha; reflexivity).
    erewrite bind_raise by (unfold call; rewrite H; reflexivity).
    exists [AudioFromFile f; AudioExport TEMP_WAV_FILENAME].
    rewrite <- app_assoc. split; [reflexivity | repeat constructor].
Qed.

Lemma upload_stops_when_the_audio_fails_witness :
  exists d,
    upload Broken.env_bad_audio Sample.post_request [] =
      (Ok (JsonResponse [(lit "error", lit "could not decode")] 500), [] ++ d) /\
    Forall (fun ev => stage_of ev = DecodeAudio) d.
Proof.
  apply (upload_stops_when_the_audio_fails Broken.env_bad_audio Sample.post_request
           Sample.wav (ExternalError (lit "could not decode")) []); try reflexivity.
  left. reflexivity.
Defined.



(** ** The note of a line, in the result *)

Lemma decode_loop_acc (ls : list str) :
  forall acc t,
    fst (decode_loop ls acc t) =
    match fst (decode_loop ls [] t) with
    | Ok ns => Ok (acc ++ ns)
    | Raise e => Raise e
    end.
Proof.
  induction ls as [| l ls IH]; intros acc t.
  - cbn. now rewrite app_nil_r.
  - destruct (has_three l) eqn:H.
    + apply has_three_true in H. rewrite !decode_loop_note by exact H.
      destruct (parse_note (split_ws l)) as [n |]; [| reflexivity].
      rewrite (IH (acc ++ [n])), (IH ([] ++ [n])).
      destruct (fst (decode_loop ls [] t)); [| reflexivity].
      cbn [app]. now rewrite <- app_assoc.
    + apply has_three_false in H. rewrite !decode_loop_skip by exact H. apply IH.
Qed.

Lemma decode_loop_app_fst (l1 l2 : list str) :
  forall acc t,
    fst (decode_loop (l1 ++ l2) acc t) =
    match fst (decode_loop l1 acc t) with
    | Ok ns => fst (decode_loop l2 ns t)
    | Raise e => Raise e
    end.
Proof.
  induction l1 as [| l l1 IH]; intros acc t; [reflexivity |].
  cbn [app]. destruct (has_three l) eqn:H.
  - apply has_three_true in H. rewrite !decode_loop_note by exact H.
    destruct (parse_note (split_ws l)) as [n |]; [apply IH | reflexivity].
  - apply has_three_false in H. rewrite !decode_loop_skip by exact H.
    rewrite IH.
    destruct (fst (decode_loop l1 acc _)); [apply decode_loop_fst | reflexivity].
Qed.

Lemma decode_loop_succeeds (ls : list str) (t : trace) :
  Forall (fun x => has_three x = true -> exists n, parse_note (split_ws x) = Ok n) ls ->
  exists ns,
    fst (decode_loop ls [] t) = Ok ns /\ length ns = length (filter has_three ls).
Proof.
  intros F. destruct (fst (decode_loop ls [] t)) as [ns | e] eqn:E.
  - exists ns. split; [reflexivity |]. exact (decode_loop_count _ _ _ _ E).
  - exfalso. apply decode_loop_raises in E.
    destruct E as (l1 & l & l2 & -> & _ & Hl & Pl).
    rewrite Forall_forall in F.
    destruct (F l (in_elt l l1 l2) Hl) as (n & Pn). congruence.
Qed.

Lemma line_in_the_result
    (text_data : str) (before after : list str) (l : str) (note : Note) (t : trace) :
  lines_of text_data = before ++ l :: after ->
  (3 <= length (split_ws l))%nat ->
  parse_note (split_ws l) = Ok note ->
  Forall (fun x => has_three x = true -> exists n, parse_note (split_ws x) = Ok n)
         (before ++ after) ->
  exists ns1 ns2,
    fst (convert_text_to_midi text_data t) =
      Ok (mkMidi [mkInstrument 0 false (ns1 ++ note :: ns2)]) /\
    length ns1 = length (filter has_three before) /\
    length ns2 = length (filter has_three after).
Proof.
  intros Hlines Hlen Hnote F. apply Forall_app in F. destruct F as [Fb Fa].
  destruct (decode_loop_succeeds before t Fb) as (ns1 & E1 & L1).
  destruct (decode_loop_succeeds after t Fa) as (ns2 & E2 & L2).
  exists ns1, ns2. split; [| split; assumption].
  rewrite convert_fst, Hlines, decode_loop_app_fst, E1.
  rewrite decode_loop_note by exact Hlen. rewrite Hnote.
  rewrite decode_loop_acc, E2, <- app_assoc. reflexivity.
Qed.

(** C8.  A line of exactly three integer fields gives, in the instrument
    that decoding returns, a note of velocity 100 with the pitch and the
    times of the line, at the place of the line among the notes; with a
    fourth field, that field is read as the velocity of the note.  The
    other lines of the text are any lines that do not stop the decoder. *)
Theorem default_velocity_is_100
    (text_data : str) (before after : list str) (l : str)
    (f1 f2 f3 : str) (more : list str) (p s e : Z) (xs xe : Float.float) (t : trace) :
  lines_of text_data = before ++ l :: after ->
  split_ws l = f1 :: f2 :: f3 :: more ->
  py_int f1 = Ok p -> py_int f2 = Ok s -> py_int f3 = Ok e ->
  seconds_of_ms s = Ok xs -> seconds_of_ms e = Ok xe ->
  Forall (fun x => has_three x = true -> exists n, parse_note (split_ws x) = Ok n)
         (before ++ after) ->
  (more = [] ->
   exists ns1 ns2,
     fst (convert_text_to_midi text_data t) =
       Ok (mkMidi [mkInstrument 0 false (ns1 ++ mkNote 100 p xs xe :: ns2)]) /\
     length ns1 = length (filter has_three before) /\
     length ns2 = length (filter has_three after)) /\
  (forall f4 tail v, more = f4 :: tail -> py_int f4 = Ok v ->
   exists ns1 ns2,
     fst (convert_text_to_midi text_data t) =
       Ok (mkMidi [mkInstrument 0 false (ns1 ++ mkNote v p xs xe :: ns2)]) /\
     length ns1 = length (filter has_three before) /\
     length ns2 = length (filter has_three after)).
Proof.
  intros Hlines Hl H1 H2 H3 Hs He F. split.
  - intros ->. apply (line_in_the_result text_data before after l _ t Hlines); auto.
    + rewrite Hl. cbn. lia.
    + rewrite Hl. unfold parse_note. cbn [nth length].
      rewrite H1, H2, H3, Hs, He. reflexivity.
  - intros f4 tail v -> H4.
    apply (line_in_the_result text_data before after l _ t Hlines); auto.
    + rewrite Hl. cbn. lia.
    + rewrite Hl. unfold parse_note. cbn [nth].
      rewrite H1, H2, H3.
      replace (4 <=? Z.of_nat (length (f1 :: f2 :: f3 :: f4 :: tail))) with true
        by (symmetry; apply Z.leb_le; cbn [length]; lia).
      rewrite H4, Hs, He. reflexivity.
Qed.

Lemma default_velocity_is_100_witness :
  exists ns1 ns2,
    fst (convert_text_to_midi
           (lit "61 500 1000 80" ++ [NL] ++ lit "bad line" ++ [NL] ++
            lit "60 0 500" ++ [NL] ++ lit "62 1 2") []) =
      Ok (mkMidi [mkInstrument 0 false
                    (ns1 ++ mkNote 100 60 (Sample.sec 0) (Sample.sec 500) :: ns2)]) /\
    length ns1 = length (filter has_three [lit "61 500 1000 80"; lit "bad line"]) /\
    length ns2 = length (filter has_three [lit "62 1 2"]).
Proof.
  refine (proj1 (default_velocity_is_100
                   (lit "61 500 1000 80" ++ [NL] ++ lit "bad line" ++ [NL] ++
                    lit "60 0 500" ++ [NL] ++ lit "62 1 2")
                   [lit "61 500 1000 80"; lit "bad line"] [lit "62 1 2"]
                   (lit "60 0 500") (lit "60") (lit "0") (lit "500") []
                   60 0 500 (Sample.sec 0) (Sample.sec 500) []
                   _ _ _ _ _ _ _ _) eq_refl); try reflexivity.
  repeat constructor.
  - intros _. eexists. vm_compute. reflexivity.
  - intros H. vm_compute in H. discriminate.
  - intros _. eexists. vm_compute. reflexivity.
Defined.
